(** * lollipop: validators, context-aware callables and the type registry

    A shallow embedding of [lollipop/validators.py], [lollipop/utils.py] and
    [lollipop/type_registry.py], and the properties of these modules that the
    specification states.

    Conventions of the embedding:
    - a Python value is a [value]; Python's [True] and [False] are the
      integers 1 and 0 (in Python [bool] is a subclass of [int]);
    - a call that may raise is a [result]: [Return a] or [Raise e];
    - an instance is a record of its attributes; a method takes the instance
      as its first argument ([self]);
    - code that mutates objects ([TypeRegistry], [TypeRef]) runs in a state
      monad over an explicit [world]. *)

From stdpp Require Import gmap strings list fin_maps pretty.
From Stdlib Require Import ZArith QArith Lia Ascii.

Open Scope Z_scope.

Set Warnings "-register-all".

(** ** Python values *)

Inductive value : Type :=
| VNone
| VInt (n : Z)
| VStr (s : string)
| VList (items : list value).

(** [repr(v)] and [str(v)]. *)
Fixpoint repr (v : value) : string :=
  match v with
  | VNone => "None"
  | VInt n => pretty n
  | VStr s => "'" +:+ s +:+ "'"
  | VList items =>
      "[" +:+ (fix go (l : list value) : string :=
                 match l with
                 | [] => EmptyString
                 | [x] => repr x
                 | x :: r => repr x +:+ ", " +:+ go r
                 end) items +:+ "]"
  end.

Definition str (v : value) : string :=
  match v with
  | VStr s => s
  | _ => repr v
  end.

(** Truth value of a Python object, as [if] and [not] test it. *)
Definition truthy (v : value) : bool :=
  match v with
  | VNone => false
  | VInt n => negb (n =? 0)
  | VStr s => negb (String.eqb s EmptyString)
  | VList items => match items with [] => false | _ => true end
  end.

(** Equality of values ([==]); structural on this fragment. *)
Fixpoint value_eqb (a b : value) : bool :=
  match a, b with
  | VNone, VNone => true
  | VInt x, VInt y => x =? y
  | VStr s, VStr t => String.eqb s t
  | VList l, VList m =>
      (fix go (l m : list value) : bool :=
         match l, m with
         | [], [] => true
         | x :: l', y :: m' => value_eqb x y && go l' m'
         | _, _ => false
         end) l m
  | _, _ => false
  end.

(** [hash(v)] succeeds on [None], integers and strings; a list is
    unhashable. *)
Definition hashable (v : value) : bool :=
  match v with
  | VList _ => false
  | _ => true
  end.

(** The one-character strings a [str] yields when iterated. *)
Fixpoint chars (s : string) : list value :=
  match s with
  | EmptyString => []
  | String c r => VStr (String c EmptyString) :: chars r
  end.

(** ** Exceptions and results *)

(** The payload of a [ValidationError]: a message, a list of payloads, or a
    dict from a path segment (an index or a key) to a payload. *)
Inductive messages : Type :=
| MsgStr (s : string)
| MsgList (l : list messages)
| MsgDict (d : list (value * messages)).

Inductive exn : Type :=
| ValidationError (msgs : messages)
| ValueError (msg : string)
| KeyError (msg : string)
| TypeError (msg : string)
| AttributeError (msg : string)
| ReferenceError (msg : string).

Inductive result (A : Type) : Type :=
| Return (a : A)
| Raise (e : exn).
Arguments Return {A} a.
Arguments Raise {A} e.

#[global] Instance result_ret : MRet result := fun A a => Return a.
#[global] Instance result_bind : MBind result := fun A B f m =>
  match m with
  | Return a => f a
  | Raise e => Raise e
  end.

(** ** lollipop/compat.py *)

(** [PY2 = int(sys.version_info[0]) == 2]; the modules use annotation syntax
    that only Python 3 parses. *)
Definition PY2 : bool := false.

(** [isinstance(value, Sequence)]: lists and strings, of this fragment. *)
Definition isinstance_Sequence (v : value) : bool :=
  match v with
  | VStr _ | VList _ => true
  | _ => false
  end.

(** What [for item in value] iterates over, and [len(value)]. *)
Definition iter (v : value) : result (list value) :=
  match v with
  | VStr s => Return (chars s)
  | VList items => Return items
  | VNone => Raise (TypeError "'NoneType' object is not iterable")
  | VInt _ => Raise (TypeError "'int' object is not iterable")
  end.

Definition len (v : value) : result Z :=
  match v with
  | VStr s => Return (Z.of_nat (String.length s))
  | VList items => Return (Z.of_nat (length items))
  | VNone => Raise (TypeError "object of type 'NoneType' has no len()")
  | VInt _ => Raise (TypeError "object of type 'int' has no len()")
  end.

(** [a < b] and [a > b] against an integer bound; other operand types do not
    compare with [int]. *)
Definition lt_int (a : value) (b : Z) : result bool :=
  match a with
  | VInt x => Return (x <? b)
  | _ => Raise (TypeError "'<' not supported between these instances")
  end.

Definition gt_int (a : value) (b : Z) : result bool :=
  match a with
  | VInt x => Return (x >? b)
  | _ => Raise (TypeError "'>' not supported between these instances")
  end.

Definition of_optional (o : option Z) : value :=
  match o with
  | Some n => VInt n
  | None => VNone
  end.

(** ** lollipop/errors.py *)

Abbreviation kwargs := (list (string * value)).

Fixpoint kwargs_get (name : string) (kw : kwargs) : option value :=
  match kw with
  | [] => None
  | (k, v) :: r => if String.eqb k name then Some v else kwargs_get name r
  end.

Definition substitute (kw : kwargs) (name : string) : string :=
  match kwargs_get name kw with
  | Some v => str v
  | None => "{" +:+ name +:+ "}"
  end.

(** Modelled from the spec: the message formatting of
    [ErrorMessagesMixin._fail] (lollipop/errors.py is not among the sources).
    Named placeholders such as [{min}] are replaced by the keyword values
    given; keyword values the template does not name are ignored, and
    formatting does not raise. [cur] is the placeholder name being read. *)
Fixpoint format_go (kw : kwargs) (cur : option string) (tmpl : string) : string :=
  match tmpl with
  | EmptyString =>
      match cur with
      | None => EmptyString
      | Some name => "{" +:+ name
      end
  | String c r =>
      match cur with
      | None =>
          if Ascii.eqb c "{"%char then format_go kw (Some EmptyString) r
          else String c (format_go kw None r)
      | Some name =>
          if Ascii.eqb c "}"%char then substitute kw name +:+ format_go kw None r
          else format_go kw (Some (name +:+ String c EmptyString)) r
      end
  end.

Definition format (tmpl : string) (kw : kwargs) : string :=
  format_go kw None tmpl.

Definition MISSING_ERROR_MESSAGE : string :=
  "Error message {error_key} in class {class_name} does not exist".

(** Modelled from the spec: [ErrorMessagesMixin] (lollipop/errors.py is not
    among the sources). An instance holds a table from error key to message
    template, seeded from the class's [default_error_messages] and overridable
    by the constructor argument [error_messages]. [_fail] looks the key up,
    fails fatally when it is unknown, formats the template with the keyword
    values and raises a [ValidationError] carrying the formatted string. *)
Module ErrorMessagesMixin.

Definition __init__ (default_error_messages error_messages : gmap string string)
  : gmap string string :=
  error_messages ∪ default_error_messages.

Definition _fail {A : Type} (_error_messages : gmap string string)
    (error_key : string) (kw : kwargs) : result A :=
  match _error_messages !! error_key with
  | None =>
      Raise (ValueError (format MISSING_ERROR_MESSAGE [("error_key", VStr error_key)]))
  | Some msg => Raise (ValidationError (MsgStr (format msg kw)))
  end.

End ErrorMessagesMixin.

(** Modelled from the spec: [ValidationErrorBuilder], the error accumulator
    (lollipop/errors.py is not among the sources). It maps a path segment to
    the raw payloads recorded under it, in the order of recording.
    [add_errors] records the payloads of a dict [{segment: payload}];
    [raise_errors] raises one [ValidationError] whose payload holds every
    recorded contribution under its segment, and raises nothing when nothing
    was recorded. *)
Module ValidationErrorBuilder.

Record t : Type := { errors : list (value * list messages) }.

Definition __init__ : t := {| errors := [] |}.

Fixpoint record_at (segment : value) (payload : messages)
    (d : list (value * list messages)) : list (value * list messages) :=
  match d with
  | [] => [(segment, [payload])]
  | (k, ps) :: r =>
      if value_eqb k segment then (k, ps ++ [payload]) :: r
      else (k, ps) :: record_at segment payload r
  end.

Definition add_errors (self : t) (errs : list (value * messages)) : t :=
  {| errors := fold_left (fun d e => record_at e.1 e.2 d) errs (errors self) |}.

Definition payload (self : t) : messages :=
  MsgDict (map (fun e => (e.1, MsgList e.2)) (errors self)).

Definition raise_errors (self : t) : result unit :=
  match errors self with
  | [] => Return tt
  | _ :: _ => Raise (ValidationError (payload self))
  end.

End ValidationErrorBuilder.

(** ** lollipop/utils.py *)

Definition identity (v : value) : value := v.

Definition is_sequence (v : value) : bool := isinstance_Sequence v.

(** The fields of [inspect.getfullargspec] that decide how many positional
    arguments a call may pass: [defaults] is the number of trailing [args]
    that have a default, [kwonlydefaults] the number of keyword-only
    arguments that have one. *)
Record FullArgSpec : Type := {
  args : list string;
  varargs : bool;
  defaults : nat;
  kwonlyargs : list string;
  kwonlydefaults : nat
}.

(** What [inspect] reports for an object: its argument specification, or
    [None] when [getfullargspec] raises [TypeError] (unsupported callable). *)
Abbreviation inspectable := (option FullArgSpec).

(** A callable. [Function] is a [def] or [lambda] ([inspect.isfunction]);
    [Method] a bound method ([inspect.ismethod]), whose specification is the
    underlying function's and so lists the receiver; [Class] a class
    ([inspect.isclass]), with the specification of its [__init__];
    [Instance] any other callable object, with the specification of its bound
    [__call__]; [normalized] is the closure [make_context_aware] builds around
    [func]. [body] is what the call computes from its positional arguments
    once they are bound. *)
Inductive callable : Type :=
| Function (spec : FullArgSpec) (body : list value -> result value)
| Method (spec : inspectable) (body : list value -> result value)
| Class (init_spec : inspectable) (body : list value -> result value)
| Instance (call_spec : inspectable) (body : list value -> result value)
| normalized (func : callable).

Definition inspect_ismethod (f : callable) : bool :=
  match f with Method _ _ => true | _ => false end.

Definition inspect_isfunction (f : callable) : bool :=
  match f with Function _ _ | normalized _ => true | _ => false end.

Definition inspect_isclass (f : callable) : bool :=
  match f with Class _ _ => true | _ => false end.

(** The specification of the closure [normalized], which takes any number
    of positional arguments. *)
Definition normalized_spec : FullArgSpec :=
  {| args := []; varargs := true; defaults := 0;
     kwonlyargs := []; kwonlydefaults := 0 |}.

(** The specification of [func] itself, of [func.__init__] and of
    [func.__call__]. *)
Definition spec_of (f : callable) : inspectable :=
  match f with
  | Function spec _ => Some spec
  | Method spec _ => spec
  | Class spec _ => spec
  | Instance spec _ => spec
  | normalized _ => Some normalized_spec
  end.

Definition getfullargspec (o : inspectable) : result FullArgSpec :=
  match o with
  | Some spec => Return spec
  | None => Raise (TypeError "unsupported callable")
  end.

(** [inspect.getargspec], of Python 2, reports the same [args]. *)
Definition getargspec (o : inspectable) : result FullArgSpec :=
  getfullargspec o.

Definition get_arg_count (func : inspectable) : result Z :=
  if PY2 then
    spec ← getargspec func;
    Return (Z.of_nat (length (args spec)))
  else
    spec ← getfullargspec func;
    Return (Z.of_nat (length (args spec)) + Z.of_nat (length (kwonlyargs spec))).

(** The [try] block of [make_context_aware]. *)
Definition inspected_arg_count (func : callable) : result Z :=
  if inspect_ismethod func then
    n ← get_arg_count (spec_of func); Return (n - 1)
  else if inspect_isfunction func then
    get_arg_count (spec_of func)
  else if inspect_isclass func then
    n ← get_arg_count (spec_of func); Return (n - 1)
  else
    n ← get_arg_count (spec_of func); Return (n - 1).

Definition make_context_aware (func : callable) (numargs : Z) : result callable :=
  arg_count ← match inspected_arg_count func with
              | Raise (TypeError _) => Return numargs
              | r => r
              end;
  if arg_count <=? numargs then Return (normalized func)
  else Return func.

(** Whether a call with [n] positional arguments (the receiver included, for
    a bound method) binds to the specification. *)
Definition binds (spec : FullArgSpec) (n : nat) : bool :=
  (length (args spec) - defaults spec <=? n)%nat
  && ((n <=? length (args spec))%nat || varargs spec)
  && (length (kwonlyargs spec) <=? kwonlydefaults spec)%nat.

Definition receiver (f : callable) : nat :=
  match f with
  | Function _ _ | normalized _ => 0
  | _ => 1
  end.

(** [args[:-1]]. *)
Definition drop_last (l : list value) : list value :=
  take (length l - 1) l.

(** Calling [f] with the positional arguments [actuals]. *)
Fixpoint call (f : callable) (actuals : list value) : result value :=
  let enter spec body :=
    match spec with
    | Some sp =>
        if binds sp (receiver f + length actuals) then body actuals
        else Raise (TypeError "wrong number of positional arguments")
    | None => body actuals
    end in
  match f with
  | Function spec body => enter (Some spec) body
  | Method spec body => enter spec body
  | Class spec body => enter spec body
  | Instance spec body => enter spec body
  | normalized func => call func (drop_last actuals)
  end.

Definition call_with_context (func : callable) (context : value)
    (actuals : list value) : result value :=
  f ← make_context_aware func (Z.of_nat (length actuals));
  call f (actuals ++ [context]).

(** ** lollipop/validators.py *)

(** A validator as its callers see it: [validator(value, context)] returns
    [None] or raises. *)
Abbreviation validator := (value -> value -> result unit).

(** [for key in keys: self._error_messages[key] = error]. *)
Definition set_messages (keys : list string) (error : string)
    (table : gmap string string) : gmap string string :=
  foldl (fun m key => <[key:=error]> m) table keys.

Module Predicate.

Definition default_error_messages : gmap string string :=
  {[ "invalid" := "Invalid data" ]}.

Record t : Type := {
  predicate : callable;
  error : option string;
  _error_messages : gmap string string
}.

Definition __init__ (predicate : callable) (error : option string)
    (error_messages : gmap string string) : result t :=
  let table := ErrorMessagesMixin.__init__ default_error_messages error_messages in
  p ← make_context_aware predicate 1;
  Return {| predicate := p;
            error := error;
            _error_messages :=
              match error with
              | Some e => <["invalid":=e]> table
              | None => table
              end |}.

Definition __call__ (self : t) (value context : value) : result unit :=
  r ← call (predicate self) [value; context];
  if negb (truthy r) then
    ErrorMessagesMixin._fail (_error_messages self) "invalid" [("data", value)]
  else Return tt.

End Predicate.

Module Range.

Definition default_error_messages : gmap string string :=
  <["min" := "Value should be at least {min}"]>
  (<["max" := "Value should be at most {max}"]>
  (<["range" := "Value should be at least {min} and at most {max}"]> ∅)).

Record t : Type := {
  min : option Z;
  max : option Z;
  _error_messages : gmap string string
}.

Definition __init__ (min max : option Z) (error : option string)
    (error_messages : gmap string string) : t :=
  let table := ErrorMessagesMixin.__init__ default_error_messages error_messages in
  {| min := min;
     max := max;
     _error_messages :=
       match error with
       | Some e => set_messages ["min"; "max"; "range"] e table
       | None => table
       end |}.

Definition _fail {A : Type} (self : t) (error_key : string) (kw : kwargs)
  : result A :=
  ErrorMessagesMixin._fail (_error_messages self) error_key
    ([("min", of_optional (min self)); ("max", of_optional (max self))] ++ kw).

Definition __call__ (self : t) (value context : value) : result unit :=
  match min self, max self with
  | Some lo, Some hi =>
      below ← lt_int value lo;
      outside ← (if below : bool then Return true else gt_int value hi);
      if outside : bool then _fail self "range" [("data", value)] else Return tt
  | Some lo, None =>
      below ← lt_int value lo;
      if below : bool then _fail self "min" [("data", value)] else Return tt
  | None, Some hi =>
      above ← gt_int value hi;
      if above : bool then _fail self "max" [("data", value)] else Return tt
  | None, None => Return tt
  end.

End Range.

Module Length.

Definition default_error_messages : gmap string string :=
  <["exact" := "Length should be {exact}"]>
  (<["min" := "Length should be at least {min}"]>
  (<["max" := "Length should be at most {max}"]>
  (<["range" := "Length should be at least {min} and at most {max}"]> ∅))).

Record t : Type := {
  exact : option Z;
  min : option Z;
  max : option Z;
  _error_messages : gmap string string
}.

Definition __init__ (exact min max : option Z) (error : option string)
    (error_messages : gmap string string) : t :=
  let table := ErrorMessagesMixin.__init__ default_error_messages error_messages in
  {| exact := exact;
     min := min;
     max := max;
     _error_messages :=
       match error with
       | Some e => set_messages ["exact"; "min"; "max"; "range"] e table
       | None => table
       end |}.

Definition _fail {A : Type} (self : t) (error_key : string) (kw : kwargs)
  : result A :=
  ErrorMessagesMixin._fail (_error_messages self) error_key
    ([("exact", of_optional (exact self)); ("min", of_optional (min self));
      ("max", of_optional (max self))] ++ kw).

Definition __call__ (self : t) (value context : value) : result unit :=
  length ← len value;
  let kw := [("data", value); ("length", VInt length)] in
  match exact self with
  | Some k =>
      if negb (length =? k) then _fail self "exact" kw else Return tt
  | None =>
      match min self, max self with
      | Some lo, Some hi =>
          if (length <? lo) || (length >? hi) then _fail self "range" kw
          else Return tt
      | Some lo, None =>
          if length <? lo then _fail self "min" kw else Return tt
      | None, Some hi =>
          if length >? hi then _fail self "max" kw else Return tt
      | None, None => Return tt
      end
  end.

End Length.

(** A Python [set] of hashable values, as the list of its elements, newest
    first. [key in seen] and [seen.add(key)] hash the key first, which raises
    [TypeError] on an unhashable one. *)
Definition set_contains (seen : list value) (key : value) : result bool :=
  if hashable key then Return (existsb (value_eqb key) seen)
  else Raise (TypeError "unhashable type").

Definition set_add (seen : list value) (key : value) : result (list value) :=
  if hashable key then
    Return (if existsb (value_eqb key) seen then seen else key :: seen)
  else Raise (TypeError "unhashable type").

Module Unique.

Definition default_error_messages : gmap string string :=
  <["invalid" := "Value should be collection"]>
  (<["unique" := "Values are not unique"]> ∅).

Record t : Type := {
  key : value -> value;
  _error_messages : gmap string string
}.

Definition __init__ (key : value -> value) (error : option string)
    (error_messages : gmap string string) : t :=
  let table := ErrorMessagesMixin.__init__ default_error_messages error_messages in
  {| key := key;
     _error_messages :=
       match error with
       | Some e => <["unique":=e]> table
       | None => table
       end |}.

(** The [for item in value] loop, from the state [seen]. *)
Fixpoint for_items (self : t) (items : list value) (seen : list value)
  : result unit :=
  match items with
  | [] => Return tt
  | item :: rest =>
      let k := key self item in
      dup ← set_contains seen k;
      (if dup : bool then
         ErrorMessagesMixin._fail (_error_messages self) "unique"
           [("data", item); ("key", k)]
       else Return tt) ;;
      seen' ← set_add seen k;
      for_items self rest seen'
  end.

Definition __call__ (self : t) (value context : value) : result unit :=
  (if negb (is_sequence value) then
     ErrorMessagesMixin._fail (_error_messages self) "invalid" []
   else Return tt) ;;
  let seen := [] in
  items ← iter value;
  for_items self items seen.

End Unique.

Module Each.

Definition default_error_messages : gmap string string :=
  {[ "invalid" := "Value should be collection" ]}.

Record t : Type := {
  validators : list validator;
  _error_messages : gmap string string
}.

(** The constructor's argument: one validator or a sequence of them. *)
Inductive validators_arg : Type :=
| One (v : validator)
| Many (vs : list validator).

Definition __init__ (validators : validators_arg)
    (error_messages : gmap string string) : t :=
  {| validators :=
       match validators with
       | One v => [v]
       | Many vs => vs
       end;
     _error_messages :=
       ErrorMessagesMixin.__init__ default_error_messages error_messages |}.

(** The inner loop, [for validator in self.validators], on the element
    [item] at index [idx]. The validator is called with the element alone,
    so its context is the default, [None]. *)
Fixpoint for_validators (vs : list validator) (idx : Z) (item : value)
    (error_builder : ValidationErrorBuilder.t) : result ValidationErrorBuilder.t :=
  match vs with
  | [] => Return error_builder
  | v :: rest =>
      match v item VNone with
      | Return _ => for_validators rest idx item error_builder
      | Raise (ValidationError ve) =>
          for_validators rest idx item
            (ValidationErrorBuilder.add_errors error_builder [(VInt idx, ve)])
      | Raise e => Raise e
      end
  end.

(** The outer loop, [for idx, item in enumerate(value)], from index [idx]. *)
Fixpoint for_items (vs : list validator) (idx : Z) (items : list value)
    (error_builder : ValidationErrorBuilder.t) : result ValidationErrorBuilder.t :=
  match items with
  | [] => Return error_builder
  | item :: rest =>
      error_builder' ← for_validators vs idx item error_builder;
      for_items vs (idx + 1) rest error_builder'
  end.

Definition __call__ (self : t) (value context : value) : result unit :=
  (if negb (is_sequence value) then
     ErrorMessagesMixin._fail (_error_messages self) "invalid" [("data", value)]
   else Return tt) ;;
  let error_builder := ValidationErrorBuilder.__init__ in
  items ← iter value;
  error_builder' ← for_items (validators self) 0 items error_builder;
  ValidationErrorBuilder.raise_errors error_builder'.

End Each.

(** ** The [re] module, as far as [Regexp] uses it

    A fragment of Python's regular expressions over 8-bit characters:
    literals, [.], character classes, the anchors [^] and [$], grouping,
    alternation and the greedy quantifiers. *)
Module re.

Inductive regex : Type :=
| Eps
| Chr (c : ascii)
| Dot
| Set_ (negated : bool) (ranges : list (ascii * ascii))
| Bol
| Eol
| Cat (r1 r2 : regex)
| Alt (r1 r2 : regex)
| Star (r : regex).

(** [r+] and [r?]. *)
Definition Plus (r : regex) : regex := Cat r (Star r).
Definition Opt (r : regex) : regex := Alt r Eps.

Record Pattern : Type := {
  pattern : string;
  ast : regex
}.

Definition newline : ascii := ascii_of_nat 10.

Definition in_range (c : ascii) (rg : ascii * ascii) : bool :=
  (nat_of_ascii rg.1 <=? nat_of_ascii c)%nat
  && (nat_of_ascii c <=? nat_of_ascii rg.2)%nat.

Definition in_set (negated : bool) (ranges : list (ascii * ascii)) (c : ascii)
  : bool :=
  xorb negated (existsb (in_range c) ranges).

(** [$] matches at the end of the string and just before a newline that
    ends it. *)
Definition at_end (s : string) : bool :=
  match s with
  | EmptyString => true
  | String c EmptyString => Ascii.eqb c newline
  | _ => false
  end.

(** One character [c] against a single-character expression. *)
Definition accepts (r : regex) (c : ascii) : bool :=
  match r with
  | Chr d => Ascii.eqb c d
  | Dot => negb (Ascii.eqb c newline)
  | Set_ negated ranges => in_set negated ranges c
  | _ => false
  end.

(** The iterations of a repetition whose body is matched by [body]: an
    iteration that consumes nothing is not repeated, so [fuel] iterations are
    enough once [fuel] exceeds the length of the input left. *)
Fixpoint star_loop (body : nat -> string -> (nat -> string -> bool) -> bool)
    (fuel : nat) (i : nat) (s : string) (k : nat -> string -> bool) : bool :=
  match fuel with
  | O => k i s
  | S fuel' =>
      body i s (fun j t => (i <? j)%nat && star_loop body fuel' j t k)
      || k i s
  end.

(** Backtracking matcher. [i] is the offset reached and [s] the input from
    there on; [k] continues with the offset and the input that [r] leaves. *)
Fixpoint match_here (r : regex) (i : nat) (s : string)
    (k : nat -> string -> bool) : bool :=
  match r with
  | Eps => k i s
  | Chr _ | Dot | Set_ _ _ =>
      match s with
      | String c rest => accepts r c && k (S i) rest
      | EmptyString => false
      end
  | Bol => Nat.eqb i 0 && k i s
  | Eol => at_end s && k i s
  | Cat r1 r2 => match_here r1 i s (fun j t => match_here r2 j t k)
  | Alt r1 r2 => match_here r1 i s k || match_here r2 i s k
  | Star r1 => star_loop (match_here r1) (S (String.length s)) i s k
  end.

(** [pattern.match(s) is not None]: some prefix of [s] matches, from
    offset 0. *)
Definition match_ (p : Pattern) (s : string) : bool :=
  match_here (ast p) 0%nat s (fun _ _ => true).

(** *** What it means for an expression to match

    [matches w r i j]: [r] matches the characters of [w] from offset [i] up
    to offset [j]. *)
Inductive matches (w : string) : regex -> nat -> nat -> Prop :=
| MEps i : matches w Eps i i
| MChr c i : String.get i w = Some c -> matches w (Chr c) i (S i)
| MDot c i : String.get i w = Some c -> c <> newline -> matches w Dot i (S i)
| MSet negated ranges c i :
    String.get i w = Some c -> in_set negated ranges c = true ->
    matches w (Set_ negated ranges) i (S i)
| MBol : matches w Bol 0 0
| MEol i :
    i = String.length w
    \/ (S i = String.length w /\ String.get i w = Some newline) ->
    matches w Eol i i
| MCat r1 r2 i j k :
    matches w r1 i j -> matches w r2 j k -> matches w (Cat r1 r2) i k
| MAltL r1 r2 i j : matches w r1 i j -> matches w (Alt r1 r2) i j
| MAltR r1 r2 i j : matches w r2 i j -> matches w (Alt r1 r2) i j
| MStarNil r i : matches w (Star r) i i
| MStarCons r i j k :
    matches w r i j -> matches w (Star r) j k -> matches w (Star r) i k.

(** The input from offset [n] on. *)
Fixpoint sdrop (n : nat) (s : string) : string :=
  match n, s with
  | O, _ => s
  | S n', String _ rest => sdrop n' rest
  | S _, EmptyString => EmptyString
  end.

(** *** [re.compile]

    The pattern is read left to right by a state machine. A [frame] holds the
    alternatives already closed by [|] and the items of the alternative being
    read, both newest first; [stack] holds the frames of the groups that
    enclose the current one. *)
Record frame : Type := {
  alts : list regex;
  items : list regex
}.

Definition empty_frame : frame := {| alts := []; items := [] |}.

Fixpoint cat_list (l : list regex) : regex :=
  match l with
  | [] => Eps
  | [r] => r
  | r :: rest => Cat r (cat_list rest)
  end.

Fixpoint alt_list (l : list regex) : regex :=
  match l with
  | [] => Eps
  | [r] => r
  | r :: rest => Alt r (alt_list rest)
  end.

Definition frame_regex (f : frame) : regex :=
  alt_list (rev (cat_list (rev (items f)) :: alts f)).

Definition push_item (r : regex) (f : frame) : frame :=
  {| alts := alts f; items := r :: items f |}.

(** [Normal q]: between items, [q] telling whether a quantifier may follow;
    [GroupStart]: just after an opening parenthesis; [Escape]: just after a
    backslash; [ClassStart]: just after an opening bracket; [ClassBody]:
    inside a class, with the ranges read so far, a character that may still
    open a range, and whether a dash followed it. *)
Inductive mode : Type :=
| Normal (quantifiable : bool)
| GroupStart
| Escape
| ClassStart
| ClassBody (negated first : bool) (ranges : list (ascii * ascii))
    (pending : option ascii) (dash : bool).

Record state : Type := {
  stack : list frame;
  cur : frame;
  md : mode
}.

Definition is_alnum (c : ascii) : bool :=
  let n := nat_of_ascii c in
  ((48 <=? n) && (n <=? 57) || (65 <=? n) && (n <=? 90)
   || (97 <=? n) && (n <=? 122))%nat.

Definition quantify (c : ascii) (r : regex) : regex :=
  if Ascii.eqb c "*"%char then Star r
  else if Ascii.eqb c "+"%char then Plus r
  else Opt r.

Definition step_normal (q : bool) (st : state) (c : ascii) : option state :=
  let go f m := Some {| stack := stack st; cur := f; md := m |} in
  if Ascii.eqb c "("%char then
    Some {| stack := cur st :: stack st; cur := empty_frame; md := GroupStart |}
  else if Ascii.eqb c ")"%char then
    match stack st with
    | parent :: outer =>
        Some {| stack := outer;
                cur := push_item (frame_regex (cur st)) parent;
                md := Normal true |}
    | [] => None
    end
  else if Ascii.eqb c "|"%char then
    go {| alts := cat_list (rev (items (cur st))) :: alts (cur st);
          items := [] |} (Normal false)
  else if Ascii.eqb c "*"%char || Ascii.eqb c "+"%char || Ascii.eqb c "?"%char then
    match q, items (cur st) with
    | true, r :: before =>
        go {| alts := alts (cur st); items := quantify c r :: before |}
           (Normal false)
    | _, _ => None
    end
  else if Ascii.eqb c "{"%char || Ascii.eqb c "}"%char || Ascii.eqb c "]"%char then
    None
  else if Ascii.eqb c "["%char then go (cur st) ClassStart
  else if Ascii.eqb c "\"%char then go (cur st) Escape
  else if Ascii.eqb c "."%char then go (push_item Dot (cur st)) (Normal true)
  else if Ascii.eqb c "^"%char then go (push_item Bol (cur st)) (Normal false)
  else if Ascii.eqb c "$"%char then go (push_item Eol (cur st)) (Normal false)
  else go (push_item (Chr c) (cur st)) (Normal true).

Definition single (o : option ascii) : list (ascii * ascii) :=
  match o with
  | Some p => [(p, p)]
  | None => []
  end.

Definition step_class (negated first : bool) (ranges : list (ascii * ascii))
    (pending : option ascii) (dash : bool) (st : state) (c : ascii)
  : option state :=
  let go m := Some {| stack := stack st; cur := cur st; md := m |} in
  if Ascii.eqb c "\"%char || Ascii.eqb c "["%char then None
  else if Ascii.eqb c "]"%char then
    if first then None
    else
      let all := ranges ++ single pending
                 ++ (if dash then [("-"%char, "-"%char)] else []) in
      Some {| stack := stack st;
              cur := push_item (Set_ negated all) (cur st);
              md := Normal true |}
  else
    match pending, dash with
    | Some p, true =>
        if (nat_of_ascii p <=? nat_of_ascii c)%nat
        then go (ClassBody negated false (ranges ++ [(p, c)]) None false)
        else None
    | Some p, false =>
        if Ascii.eqb c "-"%char
        then go (ClassBody negated false ranges (Some p) true)
        else go (ClassBody negated false (ranges ++ [(p, p)]) (Some c) false)
    | None, _ => go (ClassBody negated false ranges (Some c) false)
    end.

Definition step (st : state) (c : ascii) : option state :=
  match md st with
  | Normal q => step_normal q st c
  | GroupStart =>
      if Ascii.eqb c "?"%char then None else step_normal false st c
  | Escape =>
      if is_alnum c || (128 <=? nat_of_ascii c)%nat then None
      else Some {| stack := stack st;
                   cur := push_item (Chr c) (cur st);
                   md := Normal true |}
  | ClassStart =>
      if Ascii.eqb c "^"%char
      then Some {| stack := stack st; cur := cur st;
                   md := ClassBody true true [] None false |}
      else step_class false true [] None false st c
  | ClassBody negated first ranges pending dash =>
      step_class negated first ranges pending dash st c
  end.

Fixpoint parse (st : state) (s : string) : option regex :=
  match s with
  | EmptyString =>
      match md st, stack st with
      | Normal _, [] => Some (frame_regex (cur st))
      | _, _ => None
      end
  | String c rest =>
      match step st c with
      | Some st' => parse st' rest
      | None => None
      end
  end.

(** [re.compile(pattern, flags)], for [flags = 0]. [None]: the pattern is
    malformed or lies outside the fragment. *)
Definition compile (pattern : string) (flags : Z) : option Pattern :=
  if flags =? 0 then
    match parse {| stack := []; cur := empty_frame; md := Normal false |} pattern with
    | Some r => Some {| pattern := pattern; ast := r |}
    | None => None
    end
  else None.

End re.

Module Regexp.

Definition default_error_messages : gmap string string :=
  {[ "invalid" := "String does not match expected pattern" ]}.

Record t : Type := {
  regexp : re.Pattern;
  _error_messages : gmap string string
}.

(** The constructor's first argument: a pattern string or a compiled
    pattern. *)
Inductive regexp_arg : Type :=
| Source (s : string)
| Compiled (p : re.Pattern).

(** [None] when [re.compile] does not yield a pattern. *)
Definition __init__ (regexp : regexp_arg) (flags : Z) (error : option string)
    (error_messages : gmap string string) : option t :=
  let table := ErrorMessagesMixin.__init__ default_error_messages error_messages in
  let table' := match error with
                | Some e => <["invalid":=e]> table
                | None => table
                end in
  match regexp with
  | Source s =>
      match re.compile s flags with
      | Some p => Some {| regexp := p; _error_messages := table' |}
      | None => None
      end
  | Compiled p => Some {| regexp := p; _error_messages := table' |}
  end.

Definition __call__ (self : t) (value context : value) : result unit :=
  match value with
  | VStr s =>
      if negb (re.match_ (regexp self) s) then
        ErrorMessagesMixin._fail (_error_messages self) "invalid"
          [("data", value); ("regexp", VStr (re.pattern (regexp self)))]
      else Return tt
  | _ => Raise (TypeError "expected string or bytes-like object")
  end.

End Regexp.

(** ** lollipop/type_registry.py *)

(** Modelled from the spec: [Type] (lollipop/types.py is not among the
    sources), a schema building block with the two directions [load] and
    [dump], called with positional arguments, and its other attributes. *)
Record Type_ : Type := {
  load : list value -> result value;
  dump : list value -> result value;
  attributes : gmap string value
}.

Definition getattr (o : Type_) (name : string) : result value :=
  match attributes o !! name with
  | Some v => Return v
  | None => Raise (AttributeError name)
  end.

Definition hasattr (o : Type_) (name : string) : bool :=
  match getattr o name with
  | Return _ => true
  | Raise _ => false
  end.

(** A [TypeRef] object. Its resolver [_get_type] is a closure over the
    registry: when it is invoked it sees the registry's table of that
    moment. *)
Record TypeRef_obj : Type := {
  _get_type : gmap string Type_ -> result Type_;
  _inner_type : option Type_
}.

(** The mutable state: the registry's table [_types], the [TypeRef] objects
    allocated so far (a reference is an index into [heap]), and a log of the
    resolver invocations, oldest first, that the code itself does not keep:
    it records, for each invocation, the reference whose resolver ran. *)
Record world : Type := {
  _types : gmap string Type_;
  heap : list TypeRef_obj;
  invocations : list nat
}.

Definition M (A : Type) : Type := world -> result A * world.

#[global] Instance M_ret : MRet M := fun A a w => (Return a, w).
#[global] Instance M_bind : MBind M := fun A B f m w =>
  match m w with
  | (Return a, w') => f a w'
  | (Raise e, w') => (Raise e, w')
  end.

Definition lift {A : Type} (r : result A) : M A := fun w => (r, w).

Definition dquote : string := String (ascii_of_nat 34) EmptyString.

Module TypeRef.

Definition __init__ (get_type : gmap string Type_ -> result Type_) : M nat :=
  fun w =>
    (Return (length (heap w)),
     {| _types := _types w;
        heap := heap w ++ [{| _get_type := get_type; _inner_type := None |}];
        invocations := invocations w |}).

(** The property [inner_type]. *)
Definition inner_type (self : nat) : M Type_ :=
  fun w =>
    match heap w !! self with
    | None => (Raise (ReferenceError "no such object"), w)
    | Some obj =>
        match _inner_type obj with
        | Some t => (Return t, w)
        | None =>
            let log := invocations w ++ [self] in
            match _get_type obj (_types w) with
            | Return t =>
                (Return t,
                 {| _types := _types w;
                    heap := <[self := {| _get_type := _get_type obj;
                                          _inner_type := Some t |}]> (heap w);
                    invocations := log |})
            | Raise e =>
                (Raise e,
                 {| _types := _types w; heap := heap w; invocations := log |})
            end
        end
    end.

Definition load (self : nat) (actuals : list value) : M value :=
  t ← inner_type self; lift (load t actuals).

Definition dump (self : nat) (actuals : list value) : M value :=
  t ← inner_type self; lift (dump t actuals).

Definition __hasattr__ (self : nat) (name : string) : M bool :=
  t ← inner_type self; mret (hasattr t name).

Definition __getattr__ (self : nat) (name : string) : M value :=
  t ← inner_type self; lift (getattr t name).

End TypeRef.

Module TypeRegistry.

Definition __init__ : gmap string Type_ := ∅.

Definition add (name : string) (a_type : Type_) : M Type_ :=
  fun w =>
    if decide (is_Some (_types w !! name)) then
      (Raise (ValueError ("Type with name " +:+ dquote +:+ name +:+ dquote
                          +:+ " is already registered")), w)
    else
      (Return a_type,
       {| _types := <[name := a_type]> (_types w);
          heap := heap w;
          invocations := invocations w |}).

Definition _get (types : gmap string Type_) (name : string) : result Type_ :=
  match types !! name with
  | None =>
      Raise (KeyError ("Type with name " +:+ dquote +:+ name +:+ dquote
                       +:+ " is not registered"))
  | Some t => Return t
  end.

Definition get (name : string) : M nat :=
  TypeRef.__init__ (fun types => _get types name).

Definition __getitem__ (key : string) : M nat := get key.

End TypeRegistry.

(** The state in which a fresh [TypeRegistry] is the only object. *)
Definition initial_world : world :=
  {| _types := TypeRegistry.__init__; heap := []; invocations := [] |}.

(** ** lollipop/validators.py: membership validators *)

(** [value in values], for [values] a list or a tuple: some element is
    equal to [value]. *)
Definition contains (values : list value) (v : value) : bool :=
  existsb (fun x => value_eqb x v) values.

Module NoneOf.

Definition default_error_messages : gmap string string :=
  {[ "invalid" := "Invalid data" ]}.

Record t : Type := {
  values : list value;
  _error_messages : gmap string string
}.

Definition __init__ (values : list value) (error : option string)
    (error_messages : gmap string string) : t :=
  let table := ErrorMessagesMixin.__init__ default_error_messages error_messages in
  {| values := values;
     _error_messages :=
       match error with
       | Some e => <["invalid":=e]> table
       | None => table
       end |}.

Definition __call__ (self : t) (value context : value) : result unit :=
  if contains (values self) value then
    ErrorMessagesMixin._fail (_error_messages self) "invalid"
      [("data", value); ("values", VList (values self))]
  else Return tt.

End NoneOf.

Module AnyOf.

Definition default_error_messages : gmap string string :=
  {[ "invalid" := "Invalid choice" ]}.

Record t : Type := {
  choices : list value;
  _error_messages : gmap string string
}.

Definition __init__ (choices : list value) (error : option string)
    (error_messages : gmap string string) : t :=
  let table := ErrorMessagesMixin.__init__ default_error_messages error_messages in
  {| choices := choices;
     _error_messages :=
       match error with
       | Some e => <["invalid":=e]> table
       | None => table
       end |}.

Definition __call__ (self : t) (value context : value) : result unit :=
  if negb (contains (choices self) value) then
    ErrorMessagesMixin._fail (_error_messages self) "invalid"
      [("data", value); ("choices", VList (choices self))]
  else Return tt.

End AnyOf.

(** ** lollipop/utils.py: naming conventions *)

Definition is_underscore (c : ascii) : bool := Ascii.eqb c "_"%char.

(** The classes [[A-Z]] and [[a-z]]. *)
Definition is_upper (c : ascii) : bool :=
  ((65 <=? nat_of_ascii c) && (nat_of_ascii c <=? 90))%nat.

Definition is_lower (c : ascii) : bool :=
  ((97 <=? nat_of_ascii c) && (nat_of_ascii c <=? 122))%nat.

(** [c.lower()] and [c.upper()] on a letter of these classes. *)
Definition lower (c : ascii) : ascii :=
  if is_upper c then ascii_of_nat (nat_of_ascii c + 32) else c.

Definition upper (c : ascii) : ascii :=
  if is_lower c then ascii_of_nat (nat_of_ascii c - 32) else c.

(** [re.sub('([^_A-Z])([A-Z])', lambda m: m.group(1) + '_' +
    m.group(2).lower(), s)]: the string is scanned from the left; where the
    two characters at hand match they are replaced and the scan resumes after
    them, otherwise one character is copied. *)
Fixpoint to_snake_case (s : string) : string :=
  match s with
  | String c1 (String c2 rest as tl) =>
      if negb (is_underscore c1 || is_upper c1) && is_upper c2
      then String c1 (String "_" (String (lower c2) (to_snake_case rest)))
      else String c1 (to_snake_case tl)
  | _ => s
  end.

(** [re.sub('_([a-z])', lambda m: m.group(1).upper(), s)]. *)
Fixpoint to_camel_case (s : string) : string :=
  match s with
  | String c1 (String c2 rest as tl) =>
      if is_underscore c1 && is_lower c2
      then String (upper c2) (to_camel_case rest)
      else String c1 (to_camel_case tl)
  | _ => s
  end.

(** ** Python dicts *)

(** A [dict], as the list of its items in insertion order. *)
Abbreviation pydict := (list (value * value)).

Fixpoint dict_lookup (key : value) (d : pydict) : option value :=
  match d with
  | [] => None
  | (k, v) :: r => if value_eqb k key then Some v else dict_lookup key r
  end.

Fixpoint dict_store (key v : value) (d : pydict) : pydict :=
  match d with
  | [] => [(key, v)]
  | (k, x) :: r =>
      if value_eqb k key then (k, v) :: r else (k, x) :: dict_store key v r
  end.

(** The keys of a dict are distinct; the item of [key] is removed. *)
Fixpoint dict_remove (key : value) (d : pydict) : pydict :=
  match d with
  | [] => []
  | (k, x) :: r =>
      if value_eqb k key then dict_remove key r
      else (k, x) :: dict_remove key r
  end.

(** [key in d], [d[key]], [d[key] = v] and [del d[key]]; each hashes the
    key first. *)
Definition dict_contains (d : pydict) (key : value) : result bool :=
  if hashable key then
    Return (match dict_lookup key d with Some _ => true | None => false end)
  else Raise (TypeError "unhashable type").

Definition dict_getitem (d : pydict) (key : value) : result value :=
  if hashable key then
    match dict_lookup key d with
    | Some v => Return v
    | None => Raise (KeyError (repr key))
    end
  else Raise (TypeError "unhashable type").

Definition dict_setitem (d : pydict) (key v : value) : result pydict :=
  if hashable key then Return (dict_store key v d)
  else Raise (TypeError "unhashable type").

Definition dict_delitem (d : pydict) (key : value) : result pydict :=
  if hashable key then
    match dict_lookup key d with
    | Some _ => Return (dict_remove key d)
    | None => Raise (KeyError (repr key))
    end
  else Raise (TypeError "unhashable type").

(** The dict objects allocated so far; a dict is referred to by its index,
    so that two holders of one index see each other's writes. *)
Abbreviation store := (list pydict).

Definition deref (st : store) (a : nat) : pydict := default [] (st !! a).

(** A write to the dict at [a]: the store is as before when it raises. *)
Definition update (a : nat) (r : result pydict) (st : store)
  : result unit * store :=
  match r with
  | Return d => (Return tt, <[a := d]> st)
  | Raise e => (Raise e, st)
  end.

(** [x or {}], for [x] a dict or [None]: [x] itself when it is a dict that
    is not empty, a new dict otherwise. *)
Definition or_new_dict (x : option nat) (st : store) : nat * store :=
  match x with
  | Some a =>
      match st !! a with
      | Some (_ :: _) => (a, st)
      | _ => (length st, st ++ [[]])
      end
  | None => (length st, st ++ [[]])
  end.

(** ** lollipop/utils.py: DictWithDefault and OpenStruct *)

Module DictWithDefault.

Record t : Type := {
  _values : nat;
  default : value
}.

Definition __init__ (values : option nat) (default : value) (st : store)
  : t * store :=
  let (a, st') := or_new_dict values st in
  ({| _values := a; default := default |}, st').

Definition __len__ (self : t) (st : store) : Z :=
  Z.of_nat (length (deref st (_values self))).

(** [default] is [None] when the caller leaves the argument out. *)
Definition get (self : t) (key : value) (default : option value) (st : store)
  : result value :=
  present ← dict_contains (deref st (_values self)) key;
  if present : bool then dict_getitem (deref st (_values self)) key
  else Return (match default with
               | Some x => x
               | None => DictWithDefault.default self
               end).

Definition __getitem__ (self : t) (key : value) (st : store) : result value :=
  present ← dict_contains (deref st (_values self)) key;
  if present : bool then dict_getitem (deref st (_values self)) key
  else Return (default self).

Definition __setitem__ (self : t) (key v : value) (st : store)
  : result unit * store :=
  update (_values self) (dict_setitem (deref st (_values self)) key v) st.

Definition __delitem__ (self : t) (key : value) (st : store)
  : result unit * store :=
  update (_values self) (dict_delitem (deref st (_values self)) key) st.

Definition __iter__ (self : t) (st : store) : list value :=
  map fst (deref st (_values self)).

Definition __contains__ (self : t) (key : value) (st : store) : result bool :=
  dict_contains (deref st (_values self)) key.

Definition keys (self : t) (st : store) : list value :=
  map fst (deref st (_values self)).

Definition iterkeys (self : t) (st : store) : list value :=
  map fst (deref st (_values self)).

Definition iteritems (self : t) (st : store) : list (value * value) :=
  deref st (_values self).

End DictWithDefault.

Module OpenStruct.

Record t : Type := { _data : nat }.

Definition __init__ (data : option nat) (st : store) : t * store :=
  let (a, st') := or_new_dict data st in
  ({| _data := a |}, st').

Definition __getitem__ (self : t) (key : value) (st : store) : result value :=
  dict_getitem (deref st (_data self)) key.

Definition __setitem__ (self : t) (key v : value) (st : store)
  : result unit * store :=
  update (_data self) (dict_setitem (deref st (_data self)) key v) st.

Definition __delitem__ (self : t) (key : value) (st : store)
  : result unit * store :=
  update (_data self) (dict_delitem (deref st (_data self)) key) st.

Definition __iter__ (self : t) (st : store) : list value :=
  map fst (deref st (_data self)).

Definition __len__ (self : t) (st : store) : Z :=
  Z.of_nat (length (deref st (_data self))).

Definition __contains__ (self : t) (key : value) (st : store) : result bool :=
  dict_contains (deref st (_data self)) key.

Definition keys (self : t) (st : store) : list value :=
  map fst (deref st (_data self)).

Definition __hasattr__ (self : t) (name : string) (st : store) : result bool :=
  dict_contains (deref st (_data self)) (VStr name).

Definition __getattr__ (self : t) (name : string) (st : store) : result value :=
  present ← dict_contains (deref st (_data self)) (VStr name);
  if present : bool then dict_getitem (deref st (_data self)) (VStr name)
  else Raise (AttributeError name).

Definition __setattr__ (self : t) (name : string) (v : value) (st : store)
  : result unit * store :=
  update (_data self) (dict_setitem (deref st (_data self)) (VStr name) v) st.

Definition __delattr__ (self : t) (name : string) (st : store)
  : result unit * store :=
  match dict_contains (deref st (_data self)) (VStr name) with
  | Return true =>
      update (_data self) (dict_delitem (deref st (_data self)) (VStr name)) st
  | Return false => (Raise (AttributeError name), st)
  | Raise e => (Raise e, st)
  end.

End OpenStruct.

(** ** Numbers, and [Range] on them

    The values that compare with an integer bound without raising: an
    integer and a float. A finite float is given by the rational it denotes,
    which is what Python compares with an integer, exactly, and by its
    [str], which is not computed here. The other floats are the two
    infinities and NaN; every comparison with NaN is false. *)
Inductive number : Type :=
| NInt (n : Z)
| NFloat (q : Q) (shown : string)
| NInf (negative : bool)
| NNan.

Module Range_numbers.

(** [value < bound] and [value > bound], for an integer [bound]. *)
Definition lt (v : number) (bound : Z) : bool :=
  match v with
  | NInt x => x <? bound
  | NFloat q _ =>
      match Qcompare q (inject_Z bound) with Lt => true | _ => false end
  | NInf negative => negative
  | NNan => false
  end.

Definition gt (v : number) (bound : Z) : bool :=
  match v with
  | NInt x => x >? bound
  | NFloat q _ =>
      match Qcompare q (inject_Z bound) with Gt => true | _ => false end
  | NInf negative => negb negative
  | NNan => false
  end.

(** The keyword value [data=value]. [_fail] only formats it into the
    message, with [str]: a float stands there as the string that [str]
    gives for it. *)
Definition data (v : number) : value :=
  match v with
  | NInt x => VInt x
  | NFloat _ shown => VStr shown
  | NInf negative => VStr (if negative then "-inf" else "inf")
  | NNan => VStr "nan"
  end.

(** [Range.__call__] on a number. *)
Definition __call__ (self : Range.t) (v : number) (context : value)
  : result unit :=
  match Range.min self, Range.max self with
  | Some lo, Some hi =>
      if lt v lo || gt v hi
      then Range._fail self "range" [("data", data v)]
      else Return tt
  | Some lo, None =>
      if lt v lo then Range._fail self "min" [("data", data v)] else Return tt
  | None, Some hi =>
      if gt v hi then Range._fail self "max" [("data", data v)] else Return tt
  | None, None => Return tt
  end.

End Range_numbers.

(** ** Notions the properties are stated with *)

(** The outcome of [self._fail(key, **kw)] on an instance whose table has a
    template for [key]: a [ValidationError] carrying that template, formatted
    with [kw]. *)
Definition fails_with_key {A : Type} (table : gmap string string)
    (key : string) (kw : kwargs) (r : result A) : Prop :=
  exists tmpl, table !! key = Some tmpl
               /\ r = Raise (ValidationError (MsgStr (format tmpl kw))).

Definition raises_ValidationError {A : Type} (r : result A) : Prop :=
  exists m, r = Raise (ValidationError m).

(** The two-sided and one-sided bound check written from the specification:
    the key a value [x] fails with against the optional bounds, if any. *)
Definition range_verdict (lo hi : option Z) (x : Z) : option string :=
  match lo, hi with
  | Some a, Some b => if decide (a <= x <= b) then None else Some "range"
  | Some a, None => if decide (x < a) then Some "min" else None
  | None, Some b => if decide (x > b) then Some "max" else None
  | None, None => None
  end.

(** Keyword values that [Range._fail] and [Length._fail] pass on. *)
Definition Range_kwargs (self : Range.t) (value : value) : kwargs :=
  [("min", of_optional (Range.min self)); ("max", of_optional (Range.max self));
   ("data", value)].

Definition Length_kwargs (self : Length.t) (value : value) (n : Z) : kwargs :=
  [("exact", of_optional (Length.exact self));
   ("min", of_optional (Length.min self));
   ("max", of_optional (Length.max self));
   ("data", value); ("length", VInt n)].

(** The failures that running every validator of [vs] on every element of
    [items] produces, element by element from index [idx] and, for one
    element, validator by validator in list order. *)
Definition failures_at (vs : list validator) (idx : Z) (item : value)
  : list (value * messages) :=
  flat_map (fun v : validator =>
              match v item VNone with
              | Raise (ValidationError m) => [(VInt idx, m)]
              | _ => []
              end) vs.

Fixpoint failures (vs : list validator) (idx : Z) (items : list value)
  : list (value * messages) :=
  match items with
  | [] => []
  | item :: rest => failures_at vs idx item ++ failures vs (idx + 1) rest
  end.

(** The payloads an accumulator's table holds under [segment]. *)
Definition entries (segment : value) (d : list (value * list messages))
  : list messages :=
  match List.find (fun e => value_eqb e.1 segment) d with
  | Some e => e.2
  | None => []
  end.

(** The contract of [Validator.__call__]: it returns, or raises
    [ValidationError]. *)
Definition obeys_contract (vs : list validator) (items : list value) : Prop :=
  forall v item, In v vs -> In item items ->
    v item VNone = Return tt \/ raises_ValidationError (v item VNone).

(** The arity [make_context_aware] sees: the declared positional and
    keyword-only arguments, less the implicit receiver of a bound method, of
    a class's [__init__] and of a call operator; [None] when inspection
    raises [TypeError]. *)
Definition arity (f : callable) : option Z :=
  match spec_of f with
  | Some spec =>
      Some (Z.of_nat (length (args spec)) + Z.of_nat (length (kwonlyargs spec))
            - Z.of_nat (receiver f))
  | None => None
  end.

(** A plain function of the given positional arguments: no defaults, no
    variable or keyword-only arguments. *)
Definition plain (names : list string) : FullArgSpec :=
  {| args := names; varargs := false; defaults := 0;
     kwonlyargs := []; kwonlydefaults := 0 |}.

(** Programs over a registry and its references: the operations a client can
    perform, and the state they leave. *)
Inductive op : Type :=
| OpAdd (name : string) (a_type : Type_)
| OpGet (name : string)
| OpGetItem (key : string)
| OpLoad (ref : nat) (actuals : list value)
| OpDump (ref : nat) (actuals : list value)
| OpHasattr (ref : nat) (name : string)
| OpGetattr (ref : nat) (name : string).

Definition run_op (w : world) (o : op) : world :=
  match o with
  | OpAdd name a_type => (TypeRegistry.add name a_type w).2
  | OpGet name => (TypeRegistry.get name w).2
  | OpGetItem key => (TypeRegistry.__getitem__ key w).2
  | OpLoad ref actuals => (TypeRef.load ref actuals w).2
  | OpDump ref actuals => (TypeRef.dump ref actuals w).2
  | OpHasattr ref name => (TypeRef.__hasattr__ ref name w).2
  | OpGetattr ref name => (TypeRef.__getattr__ ref name w).2
  end.

Definition run_ops (ops : list op) (w : world) : world :=
  foldl run_op w ops.

(** How many times the resolver of reference [ref] has been invoked. *)
Definition resolver_invocations (ref : nat) (w : world) : nat :=
  length (filter (fun r => r = ref) (invocations w)).

(** The reference [ref] holds a resolved target [t]. *)
Definition cached (ref : nat) (t : Type_) (w : world) : Prop :=
  exists obj, heap w !! ref = Some obj /\ _inner_type obj = Some t.

(** The reference [ref] came from [TypeRegistry.get(name)] and holds no
    target yet. *)
Definition pending (ref : nat) (name : string) (w : world) : Prop :=
  heap w !! ref
  = Some {| _get_type := fun types => TypeRegistry._get types name;
            _inner_type := None |}.

(** The state after the resolver of the pending reference [ref] has been
    invoked and has returned [t]. *)
Definition resolved (ref : nat) (name : string) (t : Type_) (w : world) : world :=
  {| _types := _types w;
     heap := <[ref := {| _get_type := fun types => TypeRegistry._get types name;
                         _inner_type := Some t |}]> (heap w);
     invocations := invocations w ++ [ref] |}.

(** The state after the resolver of [ref] has been invoked and has raised. *)
Definition unresolved (ref : nat) (w : world) : world :=
  {| _types := _types w; heap := heap w; invocations := invocations w ++ [ref] |}.

(** A type whose two directions return their arguments, as a list. *)
Definition echo_type : Type_ :=
  {| load := fun actuals => Return (VList actuals);
     dump := fun actuals => Return (VList actuals);
     attributes := ∅ |}.

Definition not_registered (name : string) : exn :=
  KeyError ("Type with name " +:+ dquote +:+ name +:+ dquote
            +:+ " is not registered").

(** An element validator that fails on negative integers. *)
Definition non_negative : validator :=
  Range.__call__ (Range.__init__ (Some 0) None None ∅).

(** A [Unique] built with an override. *)
Definition unique_with_override : Unique.t :=
  Unique.__init__ identity (Some "Duplicate item") ∅.

(** A reference to a name that is never registered, used twice. *)
Definition used_twice : world :=
  run_ops [OpGet "X"; OpLoad 0 [VNone]; OpLoad 0 [VNone]] initial_world.

(** A reference taken before its name is registered. *)
Definition forward_reference : world :=
  run_ops [OpGet "X"; OpAdd "X" echo_type] initial_world.

(** Continuations and matchers ordered by what they accept. *)
Definition below (k k' : nat -> string -> bool) : Prop :=
  forall j t, k j t = true -> k' j t = true.

Definition monotone (body : nat -> string -> (nat -> string -> bool) -> bool)
  : Prop :=
  forall i s k k', below k k' -> body i s k = true -> body i s k' = true.

(** What the matcher [body] accepts in [w], [r] matches. *)
Definition sound (w : string) (r : re.regex)
    (body : nat -> string -> (nat -> string -> bool) -> bool) : Prop :=
  forall i k,
    (i <= String.length w)%nat ->
    body i (re.sdrop i w) k = true ->
    exists j, re.matches w r i j
              /\ (i <= j <= String.length w)%nat
              /\ k j (re.sdrop j w) = true.

(** Validators and callables of the examples. *)
Definition one_to_five : Range.t := Range.__init__ (Some 1) (Some 5) None ∅.

Definition not_empty : validator :=
  Length.__call__ (Length.__init__ None (Some 1) None None ∅).

Definition at_most_one : validator :=
  Length.__call__ (Length.__init__ None None (Some 1) None ∅).

Definition exactly_two : validator :=
  Length.__call__ (Length.__init__ (Some 2) None None None ∅).

(** [lambda value: value] and [lambda value, context: context]. *)
Definition is_truthy : callable :=
  Function (plain ["value"]) (fun actuals => Return (default VNone (actuals !! 0%nat))).

Definition context_is_truthy : callable :=
  Function (plain ["value"; "context"])
    (fun actuals => Return (default VNone (actuals !! 1%nat))).

(** The order between a number and an integer bound, as the comparison
    operators decide it: [bound <= v], [v <= bound], [v < bound] and
    [v > bound]. None of them holds of NaN. *)
Definition bound_le (bound : Z) (v : number) : Prop :=
  match v with
  | NInt x => bound <= x
  | NFloat q _ => Qle (inject_Z bound) q
  | NInf negative => negative = false
  | NNan => False
  end.

Definition le_bound (v : number) (bound : Z) : Prop :=
  match v with
  | NInt x => x <= bound
  | NFloat q _ => Qle q (inject_Z bound)
  | NInf negative => negative = true
  | NNan => False
  end.

Definition lt_bound (v : number) (bound : Z) : Prop :=
  match v with
  | NInt x => x < bound
  | NFloat q _ => Qlt q (inject_Z bound)
  | NInf negative => negative = true
  | NNan => False
  end.

Definition gt_bound (v : number) (bound : Z) : Prop :=
  match v with
  | NInt x => x > bound
  | NFloat q _ => Qlt (inject_Z bound) q
  | NInf negative => negative = false
  | NNan => False
  end.

(** Two and a half, the float [2.5], and five and a half, the float [5.5]. *)
Definition two_and_a_half : number := NFloat (Qmake 5 2) "2.5".

Definition five_and_a_half : number := NFloat (Qmake 11 2) "5.5".

(** The elements of [items] have hashable keys. *)
Definition hashable_keys (key : value -> value) (items : list value) : Prop :=
  Forall (fun item => hashable (key item) = true) items.

(** ** Notions of the further properties *)

(** No underscore of [s] is followed by a lower-case letter: the pattern of
    [to_camel_case] occurs nowhere. *)
Fixpoint no_underscore_lower (s : string) : bool :=
  match s with
  | String c1 (String c2 _ as tl) =>
      negb (is_underscore c1 && is_lower c2) && no_underscore_lower tl
  | _ => true
  end.

(** No upper-case letter of [s] follows a character other than an underscore
    or an upper-case letter: the pattern of [to_snake_case] occurs nowhere. *)
Fixpoint no_hump (s : string) : bool :=
  match s with
  | String c1 (String c2 _ as tl) =>
      negb (negb (is_underscore c1 || is_upper c1) && is_upper c2)
      && no_hump tl
  | _ => true
  end.

Definition is_ValidationError (e : exn) : bool :=
  match e with
  | ValidationError _ => true
  | _ => false
  end.

(** Every reference of [w] was made by [TypeRegistry.get], and one that
    holds a target holds the type registered under its name. *)
Definition consistent (w : world) : Prop :=
  forall ref obj,
    heap w !! ref = Some obj ->
    exists name,
      _get_type obj = (fun types => TypeRegistry._get types name)
      /\ forall t, _inner_type obj = Some t -> _types w !! name = Some t.

(** A function of one positional argument and keyword-only arguments that
    all have defaults. *)
Definition with_keyword_only (name : string) (kw : list string) : FullArgSpec :=
  {| args := [name]; varargs := false; defaults := 0;
     kwonlyargs := kw; kwonlydefaults := length kw |}.

(** A function of two positional arguments, the second with a default. *)
Definition with_default (name1 name2 : string) : FullArgSpec :=
  {| args := [name1; name2]; varargs := false; defaults := 1;
     kwonlyargs := []; kwonlydefaults := 0 |}.

(** A function of variable positional arguments only. *)
Definition variadic : FullArgSpec :=
  {| args := []; varargs := true; defaults := 0;
     kwonlyargs := []; kwonlydefaults := 0 |}.

(** * Properties *)

(** ** Message tables *)

Lemma init_lookup (defaults em : gmap string string) (key : string) :
  ErrorMessagesMixin.__init__ defaults em !! key
  = match em !! key with
    | Some tmpl => Some tmpl
    | None => defaults !! key
    end.
Proof.
  unfold ErrorMessagesMixin.__init__. rewrite lookup_union.
  destruct (em !! key), (defaults !! key); reflexivity.
Qed.

Lemma init_lookup_is_Some (defaults em : gmap string string) (key : string) :
  is_Some (defaults !! key) ->
  is_Some (ErrorMessagesMixin.__init__ defaults em !! key).
Proof.
  intros [d Hd]. rewrite init_lookup, Hd. destruct (em !! key); eauto.
Qed.

Lemma set_messages_in (keys : list string) (e : string)
    (table : gmap string string) (key : string) :
  In key keys -> set_messages keys e table !! key = Some e.
Proof.
  unfold set_messages. revert table.
  induction keys as [|k keys IH] using rev_ind; intros table Hin.
  - destruct Hin.
  - rewrite foldl_app. simpl. apply in_app_or in Hin.
    destruct (decide (k = key)) as [->|Hne].
    + apply lookup_insert_eq.
    + rewrite lookup_insert_ne by exact Hne. apply IH.
      destruct Hin as [Hin|[Hin|[]]]; [exact Hin | contradiction].
Qed.

Lemma set_messages_notin (keys : list string) (e : string)
    (table : gmap string string) (key : string) :
  ~ In key keys -> set_messages keys e table !! key = table !! key.
Proof.
  unfold set_messages. revert table.
  induction keys as [|k keys IH]; intros table Hnin; simpl.
  - reflexivity.
  - rewrite IH by (intros H; apply Hnin; right; exact H).
    apply lookup_insert_ne. intros ->. apply Hnin. left. reflexivity.
Qed.

Lemma fail_known {A : Type} (table : gmap string string) (key : string)
    (kw : kwargs) :
  is_Some (table !! key) ->
  fails_with_key table key kw (ErrorMessagesMixin._fail (A := A) table key kw).
Proof.
  intros [tmpl H]. exists tmpl. split; [exact H|].
  unfold ErrorMessagesMixin._fail. rewrite H. reflexivity.
Qed.

Lemma fails_with_key_not_return {A : Type} (table : gmap string string)
    (key : string) (kw : kwargs) (a : A) :
  ~ fails_with_key table key kw (Return a).
Proof. intros (tmpl & _ & H). discriminate H. Qed.

Lemma fail_not_return {A : Type} (table : gmap string string) (key : string)
    (kw : kwargs) (a : A) :
  ErrorMessagesMixin._fail table key kw <> Return a.
Proof.
  unfold ErrorMessagesMixin._fail. destruct (table !! key); discriminate.
Qed.

Lemma fail_bind {A B : Type} (table : gmap string string) (key : string)
    (kw : kwargs) (f : A -> result B) :
  ErrorMessagesMixin._fail table key kw ≫= f
  = ErrorMessagesMixin._fail table key kw.
Proof.
  unfold ErrorMessagesMixin._fail. destruct (table !! key); reflexivity.
Qed.

(** ** Range *)

Lemma Range_table_known (lo hi : option Z) (error : option string)
    (em : gmap string string) (key : string) :
  In key ["min"; "max"; "range"] ->
  is_Some (Range._error_messages (Range.__init__ lo hi error em) !! key).
Proof.
  intros Hin. unfold Range.__init__. cbn [Range._error_messages].
  destruct error as [e|].
  - rewrite set_messages_in by exact Hin. eauto.
  - apply init_lookup_is_Some.
    destruct Hin as [<-|[<-|[<-|[]]]]; vm_compute; eauto.
Qed.

(** [Range.__call__] on an integer follows [range_verdict]. *)
Lemma Range_call_verdict (self : Range.t) (x : Z) (context : value) :
  Range.__call__ self (VInt x) context
  = match range_verdict (Range.min self) (Range.max self) x with
    | None => Return tt
    | Some key => Range._fail self key [("data", VInt x)]
    end.
Proof.
  unfold Range.__call__, range_verdict.
  destruct (Range.min self) as [a|], (Range.max self) as [b|]; simpl;
    try reflexivity.
  - destruct (Z.ltb_spec x a); simpl.
    + destruct (decide (a <= x <= b)); [lia | reflexivity].
    + unfold Z.gtb. destruct (Z.compare_spec x b); simpl;
        destruct (decide (a <= x <= b)); try lia; reflexivity.
  - destruct (Z.ltb_spec x a); simpl; destruct (decide (x < a)); try lia;
      reflexivity.
  - unfold Z.gtb. destruct (Z.compare_spec x b); simpl;
      destruct (decide (x > b)); try lia; reflexivity.
Qed.

Lemma Range_fail_known (lo hi : option Z) (error : option string)
    (em : gmap string string) (key : string) (v : value) :
  In key ["min"; "max"; "range"] ->
  let self := Range.__init__ lo hi error em in
  fails_with_key (Range._error_messages self) key (Range_kwargs self v)
    (Range._fail (A := unit) self key [("data", v)]).
Proof.
  intros Hin self. apply fail_known. apply Range_table_known. exact Hin.
Qed.

(** On integers: a [Range] with both bounds succeeds exactly on the integers of
    [[min, max]] and otherwise fails with key [range]; with only [min] it
    fails, with key [min], exactly below it; with only [max] it fails, with
    key [max], exactly above it; with no bound it always succeeds. *)
Theorem Range_call_spec (lo hi x : Z) (error : option string)
    (em : gmap string string) (context : value) :
  let both := Range.__init__ (Some lo) (Some hi) error em in
  let only_min := Range.__init__ (Some lo) None error em in
  let only_max := Range.__init__ None (Some hi) error em in
  let neither := Range.__init__ None None error em in
  ((Range.__call__ both (VInt x) context = Return tt <-> lo <= x <= hi)
   /\ (fails_with_key (Range._error_messages both) "range"
         (Range_kwargs both (VInt x)) (Range.__call__ both (VInt x) context)
       <-> ~ lo <= x <= hi))
  /\ ((fails_with_key (Range._error_messages only_min) "min"
         (Range_kwargs only_min (VInt x))
         (Range.__call__ only_min (VInt x) context)
       <-> x < lo)
      /\ (Range.__call__ only_min (VInt x) context = Return tt <-> lo <= x))
  /\ ((fails_with_key (Range._error_messages only_max) "max"
         (Range_kwargs only_max (VInt x))
         (Range.__call__ only_max (VInt x) context)
       <-> x > hi)
      /\ (Range.__call__ only_max (VInt x) context = Return tt <-> x <= hi))
  /\ Range.__call__ neither (VInt x) context = Return tt.
Proof.
  intros both only_min only_max neither.
  pose proof (Range_fail_known (Some lo) (Some hi) error em "range" (VInt x)) as Hr.
  pose proof (Range_fail_known (Some lo) None error em "min" (VInt x)) as Hmin.
  pose proof (Range_fail_known None (Some hi) error em "max" (VInt x)) as Hmax.
  cbv zeta in Hr, Hmin, Hmax.
  fold both in Hr. fold only_min in Hmin. fold only_max in Hmax.
  rewrite !Range_call_verdict. subst both only_min only_max neither.
  cbn [Range.min Range.max Range.__init__ range_verdict] in *.
  assert (In "range" ["min"; "max"; "range"]) as Ir by (simpl; tauto).
  assert (In "min" ["min"; "max"; "range"]) as Imin by (simpl; tauto).
  assert (In "max" ["min"; "max"; "range"]) as Imax by (simpl; tauto).
  specialize (Hr Ir). specialize (Hmin Imin). specialize (Hmax Imax).
  split; [split | split; [split | split; [split | reflexivity]]];
    match goal with |- context [decide ?P] => destruct (decide P) end;
    split; intros H;
    try reflexivity; try assumption; try lia;
    try (exfalso; eapply fails_with_key_not_return; exact H);
    try (exfalso; eapply fail_not_return; exact H).
Qed.

(** On an integer, [Range.__call__] on numbers is [Range.__call__]. *)
Lemma Range_numbers_int (self : Range.t) (x : Z) (context : value) :
  Range_numbers.__call__ self (NInt x) context
  = Range.__call__ self (VInt x) context.
Proof.
  unfold Range_numbers.__call__, Range.__call__.
  destruct (Range.min self) as [lo|], (Range.max self) as [hi|]; simpl;
    try reflexivity.
  destruct (x <? lo), (x >? hi); reflexivity.
Qed.

(** What the two comparisons decide. *)
Lemma Range_numbers_lt_true (v : number) (bound : Z) :
  Range_numbers.lt v bound = true <-> lt_bound v bound.
Proof.
  destruct v as [x|q shown|negative|]; simpl.
  - apply Z.ltb_lt.
  - rewrite Qlt_alt. destruct (q ?= inject_Z bound)%Q; split; congruence.
  - reflexivity.
  - split; [discriminate | intros []].
Qed.

Lemma Range_numbers_gt_true (v : number) (bound : Z) :
  Range_numbers.gt v bound = true <-> gt_bound v bound.
Proof.
  destruct v as [x|q shown|negative|]; simpl.
  - rewrite Z.gtb_ltb, Z.ltb_lt. lia.
  - change (inject_Z bound < q)%Q with (q > inject_Z bound)%Q.
    rewrite Qgt_alt. destruct (q ?= inject_Z bound)%Q; split; congruence.
  - destruct negative; simpl; split; congruence.
  - split; [discriminate | intros []].
Qed.

Lemma Range_numbers_lt_false (v : number) (bound : Z) :
  v <> NNan ->
  Range_numbers.lt v bound = false <-> bound_le bound v.
Proof.
  intros Hv. destruct v as [x|q shown|negative|]; simpl.
  - apply Z.ltb_ge.
  - rewrite Qle_alt, <- Qcompare_antisym.
    destruct (inject_Z bound ?= q)%Q; simpl; intuition congruence.
  - reflexivity.
  - contradiction.
Qed.

Lemma Range_numbers_gt_false (v : number) (bound : Z) :
  v <> NNan ->
  Range_numbers.gt v bound = false <-> le_bound v bound.
Proof.
  intros Hv. destruct v as [x|q shown|negative|]; simpl.
  - rewrite Z.gtb_ltb, Z.ltb_ge. reflexivity.
  - rewrite Qle_alt.
    destruct (q ?= inject_Z bound)%Q; simpl; intuition congruence.
  - destruct negative; simpl; split; congruence.
  - contradiction.
Qed.

(** A value of another type does not compare with an integer: as soon as a
    bound is configured, the comparison raises [TypeError]. *)
Lemma Range_call_not_a_number (self : Range.t) (v context : value) :
  (forall x, v <> VInt x) ->
  Range.min self <> None \/ Range.max self <> None ->
  exists msg, Range.__call__ self v context = Raise (TypeError msg).
Proof.
  intros Hv Hb. unfold Range.__call__.
  destruct v as [|x|s|items]; [| exfalso; apply (Hv x); reflexivity | |];
    destruct (Range.min self) as [lo|], (Range.max self) as [hi|];
    try (eexists; reflexivity);
    destruct Hb as [Hb|Hb]; contradiction.
Qed.

(** With an ordered value, a number that is not NaN, every configuration of
    bounds decides as the order says. *)
Lemma Range_numbers_ordered (lo hi : Z) (v : number) (error : option string)
    (em : gmap string string) (context : value) :
  v <> NNan ->
  let both := Range.__init__ (Some lo) (Some hi) error em in
  let only_min := Range.__init__ (Some lo) None error em in
  let only_max := Range.__init__ None (Some hi) error em in
  let neither := Range.__init__ None None error em in
  ((Range_numbers.__call__ both v context = Return tt
    <-> bound_le lo v /\ le_bound v hi)
   /\ (fails_with_key (Range._error_messages both) "range"
         (Range_kwargs both (Range_numbers.data v))
         (Range_numbers.__call__ both v context)
       <-> ~ (bound_le lo v /\ le_bound v hi)))
  /\ ((fails_with_key (Range._error_messages only_min) "min"
         (Range_kwargs only_min (Range_numbers.data v))
         (Range_numbers.__call__ only_min v context)
       <-> lt_bound v lo)
      /\ (Range_numbers.__call__ only_min v context = Return tt
          <-> bound_le lo v))
  /\ ((fails_with_key (Range._error_messages only_max) "max"
         (Range_kwargs only_max (Range_numbers.data v))
         (Range_numbers.__call__ only_max v context)
       <-> gt_bound v hi)
      /\ (Range_numbers.__call__ only_max v context = Return tt
          <-> le_bound v hi))
  /\ Range_numbers.__call__ neither v context = Return tt.
Proof.
  intros Hv both only_min only_max neither.
  pose proof (Range_fail_known (Some lo) (Some hi) error em "range"
                (Range_numbers.data v)) as Hr.
  pose proof (Range_fail_known (Some lo) None error em "min"
                (Range_numbers.data v)) as Hmin.
  pose proof (Range_fail_known None (Some hi) error em "max"
                (Range_numbers.data v)) as Hmax.
  cbv zeta in Hr, Hmin, Hmax.
  specialize (Hr ltac:(simpl; tauto)). specialize (Hmin ltac:(simpl; tauto)).
  specialize (Hmax ltac:(simpl; tauto)).
  fold both in Hr. fold only_min in Hmin. fold only_max in Hmax.
  pose proof (Range_numbers_lt_true v lo) as Hlt.
  pose proof (Range_numbers_lt_false v lo Hv) as Hnlt.
  pose proof (Range_numbers_gt_true v hi) as Hgt.
  pose proof (Range_numbers_gt_false v hi Hv) as Hngt.
  unfold Range_numbers.__call__ in *.
  change (Range.min both) with (Some lo). change (Range.max both) with (Some hi).
  change (Range.min only_min) with (Some lo).
  change (Range.max only_min) with (@None Z).
  change (Range.min only_max) with (@None Z).
  change (Range.max only_max) with (Some hi).
  cbv beta iota.
  destruct (Range_numbers.lt v lo), (Range_numbers.gt v hi); cbn [orb];
    (split; [split | split; [split | split; [split | reflexivity]]]);
    split; intros H;
    try reflexivity; try assumption;
    try (exfalso; eapply fails_with_key_not_return; exact H);
    try (exfalso; eapply fail_not_return; exact H);
    intuition congruence.
Qed.

(** C3, as stated, fails on the float NaN: with both bounds configured the
    validator succeeds on it, although NaN is not between the bounds (no
    comparison with NaN holds); with one bound it succeeds as well. *)
Lemma Range_accepts_nan :
  Range_numbers.__call__ one_to_five NNan VNone = Return tt
  /\ ~ (bound_le 1 NNan /\ le_bound NNan 5)
  /\ Range_numbers.__call__ (Range.__init__ (Some 1) None None ∅) NNan VNone
     = Return tt
  /\ Range_numbers.__call__ (Range.__init__ None (Some 5) None ∅) NNan VNone
     = Return tt.
Proof.
  split; [reflexivity|]. split; [intros [[] _]|]. split; reflexivity.
Qed.

(** C3, amended. On a number other than NaN, an integer, a finite float or
    an infinity, a [Range] with both bounds succeeds exactly when the value
    is in [[min, max]] and otherwise fails with key [range]; with only [min]
    it fails, with key [min], exactly below it; with only [max] it fails,
    with key [max], exactly above it; with no bound it always succeeds. On
    NaN, which no comparison places, it succeeds whatever the bounds are. *)
Theorem Range_call_spec_numbers (lo hi : Z) (v : number)
    (error : option string) (em : gmap string string) (context : value) :
  let both := Range.__init__ (Some lo) (Some hi) error em in
  let only_min := Range.__init__ (Some lo) None error em in
  let only_max := Range.__init__ None (Some hi) error em in
  let neither := Range.__init__ None None error em in
  match v with
  | NNan =>
      Range_numbers.__call__ both v context = Return tt
      /\ Range_numbers.__call__ only_min v context = Return tt
      /\ Range_numbers.__call__ only_max v context = Return tt
      /\ Range_numbers.__call__ neither v context = Return tt
  | _ =>
      ((Range_numbers.__call__ both v context = Return tt
        <-> bound_le lo v /\ le_bound v hi)
       /\ (fails_with_key (Range._error_messages both) "range"
             (Range_kwargs both (Range_numbers.data v))
             (Range_numbers.__call__ both v context)
           <-> ~ (bound_le lo v /\ le_bound v hi)))
      /\ ((fails_with_key (Range._error_messages only_min) "min"
             (Range_kwargs only_min (Range_numbers.data v))
             (Range_numbers.__call__ only_min v context)
           <-> lt_bound v lo)
          /\ (Range_numbers.__call__ only_min v context = Return tt
              <-> bound_le lo v))
      /\ ((fails_with_key (Range._error_messages only_max) "max"
             (Range_kwargs only_max (Range_numbers.data v))
             (Range_numbers.__call__ only_max v context)
           <-> gt_bound v hi)
          /\ (Range_numbers.__call__ only_max v context = Return tt
              <-> le_bound v hi))
      /\ Range_numbers.__call__ neither v context = Return tt
  end.
Proof.
  intros both only_min only_max neither.
  destruct v as [x|q shown|negative|].
  - apply Range_numbers_ordered. discriminate.
  - apply Range_numbers_ordered. discriminate.
  - apply Range_numbers_ordered. discriminate.
  - repeat split.
Qed.

(** [Range(1, 5)] on the floats: it accepts [2.5], fails on [5.5] with key
    [range] and with the value in the message, and fails on minus
    infinity. *)
Lemma Range_on_floats :
  Range_numbers.__call__ one_to_five two_and_a_half VNone = Return tt
  /\ Range_numbers.__call__ one_to_five five_and_a_half VNone
     = Raise (ValidationError
                (MsgStr "Value should be at least 1 and at most 5"))
  /\ Range_numbers.__call__
       (Range.__init__ (Some 1) (Some 5) (Some "{data} is out of range") ∅)
       five_and_a_half VNone
     = Raise (ValidationError (MsgStr "5.5 is out of range"))
  /\ raises_ValidationError
       (Range_numbers.__call__ one_to_five (NInf true) VNone).
Proof.
  split; [reflexivity|]. split; [reflexivity|]. split; [reflexivity|].
  eexists. reflexivity.
Qed.

(** ** Length *)

Lemma Length_table_known (exact lo hi : option Z) (error : option string)
    (em : gmap string string) (key : string) :
  In key ["exact"; "min"; "max"; "range"] ->
  is_Some (Length._error_messages (Length.__init__ exact lo hi error em) !! key).
Proof.
  intros Hin. unfold Length.__init__. cbn [Length._error_messages].
  destruct error as [e|].
  - rewrite set_messages_in by exact Hin. eauto.
  - apply init_lookup_is_Some.
    destruct Hin as [<-|[<-|[<-|[<-|[]]]]]; vm_compute; eauto.
Qed.

Lemma Length_fail_known (exact lo hi : option Z) (error : option string)
    (em : gmap string string) (key : string) (v : value) (n : Z) :
  In key ["exact"; "min"; "max"; "range"] ->
  let self := Length.__init__ exact lo hi error em in
  fails_with_key (Length._error_messages self) key (Length_kwargs self v n)
    (Length._fail (A := unit) self key [("data", v); ("length", VInt n)]).
Proof.
  intros Hin self. apply fail_known. apply Length_table_known. exact Hin.
Qed.

Lemma range_verdict_keys (lo hi : option Z) (x : Z) (key : string) :
  range_verdict lo hi x = Some key -> In key ["range"; "min"; "max"].
Proof.
  unfold range_verdict. destruct lo, hi; try discriminate;
    case_decide; intros [= <-]; simpl; tauto.
Qed.

(** Without [exact], [Length.__call__] follows [range_verdict] on the
    length. *)
Lemma Length_call_verdict (self : Length.t) (v : value) (n : Z)
    (context : value) :
  len v = Return n ->
  Length.exact self = None ->
  Length.__call__ self v context
  = match range_verdict (Length.min self) (Length.max self) n with
    | None => Return tt
    | Some key => Length._fail self key [("data", v); ("length", VInt n)]
    end.
Proof.
  intros Hlen Hex. unfold Length.__call__, range_verdict.
  rewrite Hlen, Hex. simpl.
  destruct (Length.min self) as [a|], (Length.max self) as [b|];
    try reflexivity.
  - unfold Z.gtb.
    destruct (Z.ltb_spec n a), (Z.compare_spec n b); simpl;
      destruct (decide (a <= n <= b)); try lia; reflexivity.
  - destruct (Z.ltb_spec n a); destruct (decide (n < a)); try lia;
      reflexivity.
  - unfold Z.gtb. destruct (Z.compare_spec n b);
      destruct (decide (n > b)); try lia; reflexivity.
Qed.

(** With [exact], only the exact length is checked. *)
Lemma Length_call_exact (self : Length.t) (v : value) (n k : Z)
    (context : value) :
  len v = Return n ->
  Length.exact self = Some k ->
  Length.__call__ self v context
  = if decide (n = k) then Return tt
    else Length._fail self "exact" [("data", v); ("length", VInt n)].
Proof.
  intros Hlen Hex. unfold Length.__call__. rewrite Hlen, Hex. simpl.
  destruct (Z.eqb_spec n k); destruct (decide (n = k)); try lia; reflexivity.
Qed.

(** C4. For a value of length [n]: a [Length] built with [exact = k]
    succeeds exactly when [n = k], whatever [min] and [max] are, and
    otherwise fails with key [exact]; built without [exact] it applies to
    [n] the bound check that [Range] applies to its value, failing with
    [range], [min] or [max]. *)
Theorem Length_call_spec (k : Z) (lo hi : option Z) (error : option string)
    (em : gmap string string) (v : value) (n : Z) (context : value) :
  len v = Return n ->
  let exactly := Length.__init__ (Some k) lo hi error em in
  let ranged := Length.__init__ None lo hi error em in
  let range := Range.__init__ lo hi error em in
  (Length.__call__ exactly v context = Return tt <-> n = k)
  /\ (fails_with_key (Length._error_messages exactly) "exact"
        (Length_kwargs exactly v n) (Length.__call__ exactly v context)
      <-> n <> k)
  /\ Length.__call__ ranged v context
     = match range_verdict lo hi n with
       | None => Return tt
       | Some key => Length._fail ranged key [("data", v); ("length", VInt n)]
       end
  /\ Range.__call__ range (VInt n) context
     = match range_verdict lo hi n with
       | None => Return tt
       | Some key => Range._fail range key [("data", VInt n)]
       end
  /\ (Length.__call__ ranged v context = Return tt
      <-> range_verdict lo hi n = None)
  /\ (forall key, range_verdict lo hi n = Some key ->
        In key ["range"; "min"; "max"]
        /\ fails_with_key (Length._error_messages ranged) key
             (Length_kwargs ranged v n) (Length.__call__ ranged v context)).
Proof.
  intros Hlen exactly ranged range.
  assert (Length.__call__ ranged v context
          = match range_verdict lo hi n with
            | None => Return tt
            | Some key =>
                Length._fail ranged key [("data", v); ("length", VInt n)]
            end) as Hranged
    by (apply (Length_call_verdict ranged v n context Hlen); reflexivity).
  pose proof (Length_call_exact exactly v n k context Hlen eq_refl) as Hexact.
  pose proof (Length_fail_known (Some k) lo hi error em "exact" v n) as Hfail.
  cbv zeta in Hfail. fold exactly in Hfail.
  split; [|split; [|split; [exact Hranged | split; [|split]]]].
  - rewrite Hexact. destruct (decide (n = k)); split; intros H;
      try reflexivity; try assumption; try contradiction.
    exfalso; eapply fail_not_return; exact H.
  - rewrite Hexact. destruct (decide (n = k)); split; intros H;
      try assumption; try contradiction.
    + exfalso; eapply fails_with_key_not_return; exact H.
    + apply Hfail. simpl; tauto.
  - apply Range_call_verdict.
  - rewrite Hranged. destruct (range_verdict lo hi n); split; intros H;
      try reflexivity; try discriminate.
    exfalso; eapply fail_not_return; exact H.
  - intros key Hkey. pose proof (range_verdict_keys _ _ _ _ Hkey) as Hin.
    split; [exact Hin|]. rewrite Hranged, Hkey.
    apply (Length_fail_known None lo hi error em key v n).
    simpl in *. tauto.
Qed.

Lemma Length_call_spec_witness :
  len (VList [VInt 1; VInt 2]) = Return 2
  /\ (Length.__call__ (Length.__init__ (Some 2) (Some 5) None None ∅)
        (VList [VInt 1; VInt 2]) VNone = Return tt <-> 2 = 2).
Proof.
  split; [reflexivity|].
  apply (Length_call_spec 2 (Some 5) None None ∅ (VList [VInt 1; VInt 2]) 2 VNone).
  reflexivity.
Defined.

(** ** Equality of values *)

Lemma value_ind' (P : value -> Prop) :
  P VNone ->
  (forall n, P (VInt n)) ->
  (forall s, P (VStr s)) ->
  (forall items, Forall P items -> P (VList items)) ->
  forall v, P v.
Proof.
  intros HN HI HS HL.
  fix IH 1. intros [| n | s | items].
  - exact HN.
  - apply HI.
  - apply HS.
  - apply HL. induction items as [|x items IHitems].
    + constructor.
    + constructor; [apply IH | exact IHitems].
Qed.

Lemma value_eqb_eq (a b : value) : value_eqb a b = true <-> a = b.
Proof.
  revert b. induction a as [| n | s | items IH] using value_ind';
    intros [| m | t | items']; simpl; try (split; [discriminate | discriminate]);
    try (split; [reflexivity | reflexivity]).
  - rewrite Z.eqb_eq. split; [intros ->; reflexivity | intros [= ->]; reflexivity].
  - rewrite String.eqb_eq. split; [intros ->; reflexivity | intros [= ->]; reflexivity].
  - revert items'. induction IH as [|x items Hx _ IHitems]; intros [|y items'];
      try (split; [discriminate | discriminate]).
    + split; reflexivity.
    + rewrite andb_true_iff, Hx, IHitems.
      split; [intros [-> [= ->]]; reflexivity | intros [= -> ->]; split; reflexivity].
Qed.

Lemma existsb_value_eqb (k : value) (seen : list value) :
  existsb (value_eqb k) seen = true <-> In k seen.
Proof.
  rewrite existsb_exists. split.
  - intros (x & Hin & Heq). apply value_eqb_eq in Heq. subst. exact Hin.
  - intros Hin. exists k. split; [exact Hin | apply value_eqb_eq; reflexivity].
Qed.

(** ** Unique *)

Section unique_loop.
Variable self : Unique.t.
Local Abbreviation key := (Unique.key self).

Lemma Unique_step_fresh (item : value) (rest seen : list value) :
  hashable (key item) = true ->
  ~ In (key item) seen ->
  Unique.for_items self (item :: rest) seen
  = Unique.for_items self rest (key item :: seen).
Proof.
  intros Hh Hnin. simpl. fold key. unfold set_contains, set_add. rewrite Hh.
  destruct (existsb (value_eqb (key item)) seen) eqn:E.
  - apply existsb_value_eqb in E. contradiction.
  - reflexivity.
Qed.

Lemma Unique_step_seen (item : value) (rest seen : list value) :
  hashable (key item) = true ->
  In (key item) seen ->
  Unique.for_items self (item :: rest) seen
  = ErrorMessagesMixin._fail (Unique._error_messages self) "unique"
      [("data", item); ("key", key item)].
Proof.
  intros Hh Hin. simpl. fold key. unfold set_contains. rewrite Hh.
  apply existsb_value_eqb in Hin. rewrite Hin. simpl.
  unfold ErrorMessagesMixin._fail.
  destruct (Unique._error_messages self !! "unique"); reflexivity.
Qed.

(** No key repeats: the loop runs to its end. *)
Lemma Unique_loop_distinct (items seen : list value) :
  Forall (fun item => hashable (key item) = true) items ->
  NoDup (map key items) ->
  (forall item, In item items -> ~ In (key item) seen) ->
  Unique.for_items self items seen = Return tt.
Proof.
  revert seen. induction items as [|item rest IH]; intros seen Hh Hnd Hseen.
  - reflexivity.
  - inversion Hh as [|? ? Hh1 Hh2]; subst.
    inversion Hnd as [|? ? Hn1 Hn2]; subst.
    rewrite Unique_step_fresh; [|exact Hh1 | apply Hseen; left; reflexivity].
    apply IH; [exact Hh2 | exact Hn2 |].
    intros item' Hin [Heq|Hin'].
    + apply Hn1. rewrite Heq. apply list_elem_of_In, in_map. exact Hin.
    + apply (Hseen item'); [right; exact Hin | exact Hin'].
Qed.

(** The loop stops at the first element whose key was seen. *)
Lemma Unique_loop_first_duplicate (pre : list value) (item : value)
    (post seen : list value) :
  Forall (fun item => hashable (key item) = true) (pre ++ [item]) ->
  NoDup (map key pre) ->
  (forall item', In item' pre -> ~ In (key item') seen) ->
  In (key item) (seen ++ map key pre) ->
  Unique.for_items self (pre ++ item :: post) seen
  = ErrorMessagesMixin._fail (Unique._error_messages self) "unique"
      [("data", item); ("key", key item)].
Proof.
  revert seen. induction pre as [|p pre IH]; intros seen Hh Hnd Hseen Hin.
  - simpl in *. inversion Hh; subst. rewrite app_nil_r in Hin.
    apply Unique_step_seen; assumption.
  - simpl in Hh. inversion Hh as [|? ? Hh1 Hh2]; subst.
    simpl in Hnd. inversion Hnd as [|? ? Hn1 Hn2]; subst.
    change ((p :: pre) ++ item :: post) with (p :: (pre ++ item :: post)).
    rewrite Unique_step_fresh; [|exact Hh1 | apply Hseen; left; reflexivity].
    apply IH; [exact Hh2 | exact Hn2 | |].
    + intros item' Hin' [Heq|Hs].
      * apply Hn1. rewrite Heq. apply list_elem_of_In, in_map. exact Hin'.
      * apply (Hseen item'); [right; exact Hin' | exact Hs].
    + apply in_app_or in Hin. simpl. destruct Hin as [Hs|[Hp|Hpre]].
      * right. apply in_or_app. left. exact Hs.
      * left. exact Hp.
      * right. apply in_or_app. right. exact Hpre.
Qed.

(** Elements whose keys are not all distinct have a first duplicate. *)
Lemma first_duplicate (items : list value) :
  NoDup (map key items)
  \/ exists pre item post,
       items = pre ++ item :: post
       /\ NoDup (map key pre) /\ In (key item) (map key pre).
Proof.
  induction items as [|x items IH] using rev_ind.
  - left. constructor.
  - destruct IH as [Hnd | (pre & item & post & -> & Hnd & Hin)].
    + destruct (existsb (value_eqb (key x)) (map key items)) eqn:E.
      * apply existsb_value_eqb in E. right. exists items, x, []. auto.
      * assert (~ In (key x) (map key items)) as Hnin
          by (intros Hin; apply existsb_value_eqb in Hin; congruence).
        left. rewrite map_app. simpl. apply NoDup_app. split; [exact Hnd|].
        split.
        -- intros k Hk Hx. apply list_elem_of_In in Hk, Hx.
           destruct Hx as [<-|[]]. contradiction.
        -- apply NoDup_singleton.
    + right. exists pre, item, (post ++ [x]).
      rewrite <- app_assoc. auto.
Qed.
End unique_loop.

Lemma Unique_table_known (key : value -> value) (error : option string)
    (em : gmap string string) (k : string) :
  In k ["invalid"; "unique"] ->
  is_Some (Unique._error_messages (Unique.__init__ key error em) !! k).
Proof.
  intros Hin. unfold Unique.__init__. cbn [Unique._error_messages].
  assert (is_Some (ErrorMessagesMixin.__init__ Unique.default_error_messages em !! k))
    as Hk.
  { apply init_lookup_is_Some.
    destruct Hin as [<-|[<-|[]]]; vm_compute; eauto. }
  destruct error as [e|]; [|exact Hk].
  destruct (decide ("unique" = k)) as [<-|Hne].
  - rewrite lookup_insert_eq. eauto.
  - rewrite lookup_insert_ne by exact Hne. exact Hk.
Qed.

Lemma Unique_call_sequence (self : Unique.t) (v context : value)
    (items : list value) :
  is_sequence v = true ->
  iter v = Return items ->
  Unique.__call__ self v context = Unique.for_items self items [].
Proof.
  intros Hseq Hiter. unfold Unique.__call__. rewrite Hseq, Hiter. reflexivity.
Qed.

Lemma Unique_step_unhashable (self : Unique.t) (item : value)
    (rest seen : list value) :
  hashable (Unique.key self item) = false ->
  Unique.for_items self (item :: rest) seen
  = Raise (TypeError "unhashable type").
Proof.
  intros Hh. simpl. unfold set_contains. rewrite Hh. reflexivity.
Qed.

(** The loop raises at the first element whose key is unhashable, when no
    key repeats before it. *)
Lemma Unique_loop_unhashable (self : Unique.t) (pre : list value)
    (item : value) (post seen : list value) :
  hashable_keys (Unique.key self) pre ->
  NoDup (map (Unique.key self) pre) ->
  (forall item', In item' pre -> ~ In (Unique.key self item') seen) ->
  hashable (Unique.key self item) = false ->
  Unique.for_items self (pre ++ item :: post) seen
  = Raise (TypeError "unhashable type").
Proof.
  revert seen. induction pre as [|p pre IH]; intros seen Hh Hnd Hseen Hu.
  - apply Unique_step_unhashable. exact Hu.
  - inversion Hh as [|? ? Hh1 Hh2]; subst.
    simpl in Hnd. inversion Hnd as [|? ? Hn1 Hn2]; subst.
    change ((p :: pre) ++ item :: post) with (p :: (pre ++ item :: post)).
    rewrite Unique_step_fresh; [|exact Hh1 | apply Hseen; left; reflexivity].
    apply IH; [exact Hh2 | exact Hn2 | | exact Hu].
    intros item' Hin' [Heq|Hs].
    + apply Hn1. rewrite Heq. apply list_elem_of_In, in_map. exact Hin'.
    + apply (Hseen item'); [right; exact Hin' | exact Hs].
Qed.

(** Either all keys are hashable and distinct, or there is a first element
    at which the loop stops: its key is unhashable, or an earlier element
    has it. *)
Lemma first_stop (key : value -> value) (items : list value) :
  (hashable_keys key items /\ NoDup (map key items))
  \/ exists pre item post,
       items = pre ++ item :: post
       /\ hashable_keys key pre /\ NoDup (map key pre)
       /\ (hashable (key item) = false
           \/ (hashable (key item) = true /\ In (key item) (map key pre))).
Proof.
  unfold hashable_keys.
  induction items as [|x items IH] using rev_ind.
  - left. split; constructor.
  - destruct IH as [[Hh Hnd] | (pre & item & post & -> & Hh & Hnd & Hstop)].
    + destruct (hashable (key x)) eqn:Hx.
      * destruct (existsb (value_eqb (key x)) (map key items)) eqn:E.
        -- apply existsb_value_eqb in E. right. exists items, x, [].
           repeat split; auto.
        -- assert (~ In (key x) (map key items)) as Hnin
             by (intros Hin; apply existsb_value_eqb in Hin; congruence).
           left. split.
           ++ apply Forall_app. split; [exact Hh|]. repeat constructor. exact Hx.
           ++ rewrite map_app. simpl. apply NoDup_app. split; [exact Hnd|].
              split; [|apply NoDup_singleton].
              intros k Hk Hkx. apply list_elem_of_In in Hk, Hkx.
              destruct Hkx as [<-|[]]. contradiction.
      * right. exists items, x, []. repeat split; auto.
    + right. exists pre, item, (post ++ [x]).
      rewrite <- app_assoc. repeat split; auto.
Qed.

(** C5, as stated, fails on elements whose keys are unhashable: the keys of
    two different lists are distinct, yet the validator does not succeed on
    them; it raises [TypeError]. *)
Lemma Unique_distinct_unhashable :
  Unique.__call__ (Unique.__init__ identity None ∅)
    (VList [VList [VInt 1]; VList [VInt 2]]) VNone
  = Raise (TypeError "unhashable type")
  /\ NoDup (map identity [VList [VInt 1]; VList [VInt 2]])
  /\ Unique.__call__ (Unique.__init__ identity None ∅)
       (VList [VList [VInt 1]; VList [VInt 2]]) VNone
     <> Return tt.
Proof.
  split; [reflexivity|]. split; [|discriminate].
  apply NoDup_cons. split; [|apply NoDup_singleton].
  intros H. apply list_elem_of_In in H. destruct H as [H|[]]. discriminate H.
Qed.

(** C5, amended. On a value that is not a sequence [Unique] fails with key
    [invalid]. On a sequence it walks the elements in order and stops at the
    first element whose key is unhashable or was already seen: at a key
    already seen it fails with key [unique], with that element and its key
    as substitutions; at an unhashable key it raises [TypeError]. In both
    cases the elements that follow are not looked at, whatever their keys
    are. It succeeds exactly when all keys are hashable and distinct. *)
Theorem Unique_call_spec (key : value -> value) (error : option string)
    (em : gmap string string) (value context : value) :
  let self := Unique.__init__ key error em in
  (is_sequence value = false ->
   fails_with_key (Unique._error_messages self) "invalid" []
     (Unique.__call__ self value context))
  /\ (forall items,
        is_sequence value = true ->
        iter value = Return items ->
        (Unique.__call__ self value context = Return tt
         <-> hashable_keys key items /\ NoDup (map key items))
        /\ (forall pre item post,
              items = pre ++ item :: post ->
              hashable_keys key pre ->
              NoDup (map key pre) ->
              In (key item) (map key pre) ->
              fails_with_key (Unique._error_messages self) "unique"
                [("data", item); ("key", key item)]
                (Unique.__call__ self value context))
        /\ (forall pre item post,
              items = pre ++ item :: post ->
              hashable_keys key pre ->
              NoDup (map key pre) ->
              hashable (key item) = false ->
              Unique.__call__ self value context
              = Raise (TypeError "unhashable type"))).
Proof.
  intros self. split.
  - intros Hseq.
    pose proof (fail_known (A := unit) (Unique._error_messages self) "invalid" []
                  (Unique_table_known key error em "invalid"
                     (or_introl eq_refl))) as Hf.
    destruct Hf as (tmpl & Ht & Hf). exists tmpl. split; [exact Ht|].
    unfold Unique.__call__. rewrite Hseq. cbn [negb]. rewrite Hf. reflexivity.
  - intros items Hseq Hiter.
    rewrite (Unique_call_sequence self value context items Hseq Hiter).
    assert (forall pre item post,
              items = pre ++ item :: post ->
              hashable_keys key pre ->
              NoDup (map key pre) ->
              In (key item) (map key pre) ->
              fails_with_key (Unique._error_messages self) "unique"
                [("data", item); ("key", key item)]
                (Unique.for_items self items [])) as Hdup.
    { intros pre item post -> Hh Hnd Hin.
      assert (hashable (key item) = true) as Hi.
      { apply in_map_iff in Hin. destruct Hin as (item' & <- & Hin').
        unfold hashable_keys in Hh. rewrite Forall_forall in Hh.
        apply Hh, list_elem_of_In, Hin'. }
      rewrite (Unique_loop_first_duplicate self pre item post []).
      - apply fail_known. apply Unique_table_known. simpl; tauto.
      - apply Forall_app. split; [exact Hh|].
        constructor; [exact Hi | constructor].
      - exact Hnd.
      - intros ? _ [].
      - exact Hin. }
    assert (forall pre item post,
              items = pre ++ item :: post ->
              hashable_keys key pre ->
              NoDup (map key pre) ->
              hashable (key item) = false ->
              Unique.for_items self items []
              = Raise (TypeError "unhashable type")) as Hun.
    { intros pre item post -> Hh Hnd Hi.
      apply (Unique_loop_unhashable self pre item post []);
        [exact Hh | exact Hnd | intros ? _ [] | exact Hi]. }
    split; [split | split; [exact Hdup | exact Hun]].
    + intros Hret.
      destruct (first_stop key items)
        as [Hok | (pre & item & post & Heq & Hh & Hnd & [Hi|[Hi Hin]])];
        [exact Hok | |]; exfalso.
      * rewrite (Hun pre item post Heq Hh Hnd Hi) in Hret. discriminate Hret.
      * specialize (Hdup pre item post Heq Hh Hnd Hin).
        rewrite Hret in Hdup. eapply fails_with_key_not_return, Hdup.
    + intros [Hh Hnd]. apply Unique_loop_distinct; [exact Hh | exact Hnd |].
      intros ? _ [].
Qed.

Lemma Unique_call_spec_witness :
  fails_with_key
    (Unique._error_messages (Unique.__init__ identity None ∅)) "unique"
    [("data", VInt 2); ("key", identity (VInt 2))]
    (Unique.__call__ (Unique.__init__ identity None ∅)
       (VList [VInt 1; VInt 2; VInt 2; VList [VInt 3]]) VNone).
Proof.
  apply (proj1 (proj2 (proj2 (Unique_call_spec identity None ∅
                  (VList [VInt 1; VInt 2; VInt 2; VList [VInt 3]]) VNone)
           [VInt 1; VInt 2; VInt 2; VList [VInt 3]] eq_refl eq_refl)))
    with (pre := [VInt 1; VInt 2]) (post := [VList [VInt 3]]).
  - reflexivity.
  - repeat constructor.
  - apply NoDup_cons. split.
    + intros H. apply list_elem_of_In in H. simpl in H.
      destruct H as [H|[]]. discriminate H.
    + apply NoDup_singleton.
  - simpl. right. left. reflexivity.
Defined.

(** ** The error accumulator *)

Lemma add_errors_app (b : ValidationErrorBuilder.t)
    (l1 l2 : list (value * messages)) :
  ValidationErrorBuilder.add_errors (ValidationErrorBuilder.add_errors b l1) l2
  = ValidationErrorBuilder.add_errors b (l1 ++ l2).
Proof.
  unfold ValidationErrorBuilder.add_errors. simpl.
  rewrite fold_left_app. reflexivity.
Qed.

Lemma add_errors_nil (b : ValidationErrorBuilder.t) :
  ValidationErrorBuilder.add_errors b [] = b.
Proof. destruct b. reflexivity. Qed.

Lemma record_at_not_nil (seg : value) (p : messages)
    (d : list (value * list messages)) :
  ValidationErrorBuilder.record_at seg p d <> [].
Proof.
  destruct d as [|[k ps] d]; simpl; [discriminate|].
  destruct (value_eqb k seg); discriminate.
Qed.

Lemma fold_record_not_nil (l : list (value * messages))
    (d : list (value * list messages)) :
  fold_left (fun d e => ValidationErrorBuilder.record_at e.1 e.2 d) l d = []
  -> d = [] /\ l = [].
Proof.
  revert d. induction l as [|e l IH]; intros d H; simpl in H.
  - auto.
  - apply IH in H. destruct H as [H _].
    exfalso. eapply record_at_not_nil, H.
Qed.

Lemma entries_record_at (seg s : value) (p : messages)
    (d : list (value * list messages)) :
  entries seg (ValidationErrorBuilder.record_at s p d)
  = entries seg d ++ (if value_eqb s seg then [p] else []).
Proof.
  unfold entries. induction d as [|[k ps] d IH]; simpl.
  - destruct (value_eqb s seg); reflexivity.
  - destruct (value_eqb k s) eqn:Eks; simpl.
    + apply value_eqb_eq in Eks. subst k.
      destruct (value_eqb s seg); simpl; [reflexivity | rewrite app_nil_r; reflexivity].
    + destruct (value_eqb k seg) eqn:Ek; simpl; [|exact IH].
      destruct (value_eqb s seg) eqn:Es; [|rewrite app_nil_r; reflexivity].
      apply value_eqb_eq in Ek, Es. subst.
      assert (value_eqb seg seg = true) by (apply value_eqb_eq; reflexivity).
      congruence.
Qed.

Lemma entries_fold (seg : value) (l : list (value * messages))
    (d : list (value * list messages)) :
  entries seg
    (fold_left (fun d e => ValidationErrorBuilder.record_at e.1 e.2 d) l d)
  = entries seg d ++ map snd (List.filter (fun e => value_eqb e.1 seg) l).
Proof.
  revert d. induction l as [|[s p] l IH]; intros d; simpl.
  - rewrite app_nil_r. reflexivity.
  - rewrite IH, entries_record_at, <- app_assoc.
    destruct (value_eqb s seg); reflexivity.
Qed.

(** ** Each *)

Lemma Each_for_validators_spec (vs : list validator) (idx : Z) (item : value)
    (b : ValidationErrorBuilder.t) :
  (forall v, In v vs ->
     v item VNone = Return tt \/ raises_ValidationError (v item VNone)) ->
  Each.for_validators vs idx item b
  = Return (ValidationErrorBuilder.add_errors b (failures_at vs idx item)).
Proof.
  revert b. induction vs as [|v vs IH]; intros b Hc; simpl.
  - rewrite add_errors_nil. reflexivity.
  - destruct (Hc v (or_introl eq_refl)) as [Hv|[m Hv]]; rewrite Hv.
    + apply IH. intros v' Hin. apply Hc. right. exact Hin.
    + rewrite IH by (intros v' Hin; apply Hc; right; exact Hin).
      rewrite add_errors_app. reflexivity.
Qed.

Lemma Each_for_items_spec (vs : list validator) (idx : Z) (items : list value)
    (b : ValidationErrorBuilder.t) :
  obeys_contract vs items ->
  Each.for_items vs idx items b
  = Return (ValidationErrorBuilder.add_errors b (failures vs idx items)).
Proof.
  revert idx b. induction items as [|item rest IH]; intros idx b Hc; simpl.
  - rewrite add_errors_nil. reflexivity.
  - rewrite Each_for_validators_spec
      by (intros v Hin; apply Hc; [exact Hin | left; reflexivity]).
    simpl. rewrite IH by (intros v i Hv Hi; apply Hc; [exact Hv | right; exact Hi]).
    rewrite add_errors_app. reflexivity.
Qed.

Lemma failures_at_In (vs : list validator) (idx : Z) (item : value)
    (seg : value) (m : messages) :
  In (seg, m) (failures_at vs idx item)
  <-> seg = VInt idx
      /\ exists v, In v vs /\ v item VNone = Raise (ValidationError m).
Proof.
  unfold failures_at. rewrite in_flat_map. split.
  - intros (v & Hin & Hm). destruct (v item VNone) as [|[]] eqn:E;
      simpl in Hm; try contradiction.
    destruct Hm as [[= <- <-]|[]]. split; [reflexivity|]. exists v. auto.
  - intros (-> & v & Hin & Hv). exists v. split; [exact Hin|].
    rewrite Hv. left. reflexivity.
Qed.

Lemma failures_In (vs : list validator) (idx : Z) (items : list value)
    (i : Z) (m : messages) :
  In (VInt i, m) (failures vs idx items)
  <-> exists item v,
        idx <= i /\ items !! Z.to_nat (i - idx) = Some item
        /\ In v vs /\ v item VNone = Raise (ValidationError m).
Proof.
  revert idx. induction items as [|item rest IH]; intros idx; simpl.
  - split; [intros [] | intros (? & ? & _ & H & _); discriminate H].
  - rewrite in_app_iff, failures_at_In, IH. split.
    + intros [([= ->] & v & Hv & Hm) | (it & v & Hle & Hl & Hv & Hm)].
      * exists item, v. rewrite Z.sub_diag. simpl. repeat split; auto; lia.
      * exists it, v. repeat split; auto; try lia.
        replace (Z.to_nat (i - idx)) with (S (Z.to_nat (i - (idx + 1)))) by lia.
        exact Hl.
    + intros (it & v & Hle & Hl & Hv & Hm).
      destruct (decide (i = idx)) as [->|Hne].
      * left. rewrite Z.sub_diag in Hl. simpl in Hl. injection Hl as ->.
        split; [reflexivity|]. exists v. auto.
      * right. exists it, v. repeat split; auto; try lia.
        replace (Z.to_nat (i - idx)) with (S (Z.to_nat (i - (idx + 1)))) in Hl
          by lia.
        exact Hl.
Qed.

Lemma Each_table_known (vs : Each.validators_arg) (em : gmap string string) :
  is_Some (Each._error_messages (Each.__init__ vs em) !! "invalid").
Proof.
  unfold Each.__init__. cbn [Each._error_messages].
  apply init_lookup_is_Some. vm_compute. eauto.
Qed.

(** C1. On a value that is not a sequence [Each] fails with key [invalid].
    On a sequence, with validators that keep to the validator contract, the
    two loops run to their end: the accumulator ends up holding exactly the
    failures of every validator on every element, each under the index of
    its element and in the order of the validators; then one
    [ValidationError] carrying all of them is raised if there is any, and
    nothing is raised if there is none. *)
Theorem Each_call_spec (vs : list validator) (em : gmap string string)
    (value context : value) :
  let self := Each.__init__ (Each.Many vs) em in
  (is_sequence value = false ->
   fails_with_key (Each._error_messages self) "invalid" [("data", value)]
     (Each.__call__ self value context))
  /\ (forall items,
        is_sequence value = true ->
        iter value = Return items ->
        obeys_contract vs items ->
        let recorded := failures vs 0 items in
        let builder :=
          ValidationErrorBuilder.add_errors ValidationErrorBuilder.__init__
            recorded in
        Each.for_items vs 0 items ValidationErrorBuilder.__init__
        = Return builder
        /\ (forall i m,
              In (VInt i, m) recorded
              <-> exists item v,
                    0 <= i /\ items !! Z.to_nat i = Some item
                    /\ In v vs /\ v item VNone = Raise (ValidationError m))
        /\ (forall seg,
              entries seg (ValidationErrorBuilder.errors builder)
              = map snd (List.filter (fun e => value_eqb e.1 seg) recorded))
        /\ (recorded = [] -> Each.__call__ self value context = Return tt)
        /\ (recorded <> [] ->
            Each.__call__ self value context
            = Raise (ValidationError (ValidationErrorBuilder.payload builder)))).
Proof.
  intros self. split.
  - intros Hseq.
    destruct (fail_known (A := unit) (Each._error_messages self) "invalid"
                [("data", value)] (Each_table_known (Each.Many vs) em))
      as (tmpl & Ht & Hf).
    exists tmpl. split; [exact Ht|].
    unfold Each.__call__. rewrite Hseq. cbn [negb]. rewrite Hf. reflexivity.
  - intros items Hseq Hiter Hc recorded builder.
    pose proof (Each_for_items_spec vs 0 items ValidationErrorBuilder.__init__ Hc)
      as Hloop.
    fold recorded in Hloop. fold builder in Hloop.
    assert (Each.__call__ self value context
            = ValidationErrorBuilder.raise_errors builder) as Hcall.
    { unfold Each.__call__. rewrite Hseq, Hiter. cbn [negb].
      change (Each.validators self) with vs.
      cbn [mbind result_bind]. rewrite Hloop. reflexivity. }
    split; [exact Hloop|]. split; [|split; [|split]].
    + intros i m. unfold recorded. rewrite failures_In.
      rewrite Z.sub_0_r. reflexivity.
    + intros seg. unfold builder, ValidationErrorBuilder.add_errors.
      cbn [ValidationErrorBuilder.errors ValidationErrorBuilder.__init__].
      rewrite entries_fold. reflexivity.
    + intros Hnil. rewrite Hcall. unfold builder. rewrite Hnil. reflexivity.
    + intros Hne. rewrite Hcall. unfold ValidationErrorBuilder.raise_errors.
      destruct (ValidationErrorBuilder.errors builder) eqn:E; [|reflexivity].
      exfalso. apply Hne.
      unfold builder, ValidationErrorBuilder.add_errors in E.
      cbn [ValidationErrorBuilder.errors] in E.
      apply fold_record_not_nil in E. tauto.
Qed.

Lemma Each_call_spec_witness :
  Each.__call__ (Each.__init__ (Each.Many [non_negative]) ∅)
    (VList [VInt 1; VInt (-2); VInt 3]) VNone
  = Raise (ValidationError
             (ValidationErrorBuilder.payload
                (ValidationErrorBuilder.add_errors
                   ValidationErrorBuilder.__init__
                   (failures [non_negative] 0 [VInt 1; VInt (-2); VInt 3])))).
Proof.
  apply (proj2 (Each_call_spec [non_negative] ∅
                  (VList [VInt 1; VInt (-2); VInt 3]) VNone)
           [VInt 1; VInt (-2); VInt 3] eq_refl eq_refl).
  - intros v item [<-|[]] [<-|[<-|[<-|[]]]];
      solve [left; reflexivity | right; eexists; reflexivity].
  - discriminate.
Defined.

(** ** Each and the context *)

Lemma Each_for_validators_ignore (vs : list validator) (idx : Z)
    (item : value) (b : ValidationErrorBuilder.t) :
  Each.for_validators (map (fun (v : validator) x _ => v x VNone) vs) idx item b
  = Each.for_validators vs idx item b.
Proof.
  revert b. induction vs as [|v vs IH]; intros b; simpl; [reflexivity|].
  destruct (v item VNone) as [|[]]; rewrite ?IH; reflexivity.
Qed.

Lemma Each_for_items_ignore (vs : list validator) (idx : Z)
    (items : list value) (b : ValidationErrorBuilder.t) :
  Each.for_items (map (fun (v : validator) x _ => v x VNone) vs) idx items b
  = Each.for_items vs idx items b.
Proof.
  revert idx b. induction items as [|item rest IH]; intros idx b; simpl;
    [reflexivity|].
  rewrite Each_for_validators_ignore.
  destruct (Each.for_validators vs idx item b); simpl; [apply IH | reflexivity].
Qed.

(** C10. The outcome of [Each.__call__] does not depend on the context it is
    given: the element validators are called with the element alone, so each
    of them runs with the context [None]; replacing every element validator
    by one that discards the context it receives changes nothing. *)
Theorem Each_context_independent (self : Each.t) (value c1 c2 : value) :
  Each.__call__ self value c1 = Each.__call__ self value c2
  /\ Each.__call__ self value c1
     = Each.__call__
         {| Each.validators :=
              map (fun (v : validator) x _ => v x VNone) (Each.validators self);
            Each._error_messages := Each._error_messages self |}
         value c2.
Proof.
  split; [reflexivity|].
  unfold Each.__call__. cbn [Each.validators Each._error_messages].
  destruct (negb (is_sequence value)).
  - rewrite !fail_bind. reflexivity.
  - destruct (iter value) as [items|e]; simpl; [|reflexivity].
    rewrite Each_for_items_ignore. reflexivity.
Qed.

(** ** make_context_aware *)

Lemma normalized_neq (f : callable) : normalized f <> f.
Proof.
  induction f as [| | | |f IH]; try discriminate.
  intros [= H]. exact (IH H).
Qed.

Lemma inspected_arg_count_arity (f : callable) :
  inspected_arg_count f
  = match arity f with
    | Some a => Return a
    | None => Raise (TypeError "unsupported callable")
    end.
Proof.
  unfold inspected_arg_count, arity, get_arg_count.
  destruct f as [spec body|[spec|] body|[spec|] body|[spec|] body|f]; simpl;
    try reflexivity; f_equal; lia.
Qed.

Lemma make_context_aware_unfold (f : callable) (n : Z) :
  make_context_aware f n
  = Return (if default n (arity f) <=? n then normalized f else f).
Proof.
  unfold make_context_aware. rewrite inspected_arg_count_arity.
  destruct (arity f) as [a|]; simpl; destruct (_ <=? n); reflexivity.
Qed.

Lemma drop_last_snoc (l : list value) (x : value) : drop_last (l ++ [x]) = l.
Proof.
  unfold drop_last. rewrite length_app. simpl.
  replace (length l + 1 - 1)%nat with (length l) by lia.
  apply take_app_length.
Qed.

(** C6. [make_context_aware] wraps the callable in [normalized], which
    drops the last positional argument at call time, exactly when the
    inspected arity is at most [numargs], and returns the callable itself
    exactly when the arity exceeds [numargs]; when inspection raises
    [TypeError] the callable is wrapped. So a one-argument function, a
    two-argument function and a bound method of one argument each receive
    what they declare when called with a value and a context. *)
Theorem make_context_aware_spec (f : callable) (numargs : Z) :
  match arity f with
  | Some a =>
      (a <= numargs <-> make_context_aware f numargs = Return (normalized f))
      /\ (a > numargs <-> make_context_aware f numargs = Return f)
  | None => make_context_aware f numargs = Return (normalized f)
  end
  /\ (forall actuals context,
        call (normalized f) (actuals ++ [context]) = call f actuals)
  /\ (forall name body v context,
        exists g,
          make_context_aware (Function (plain [name]) body) 1 = Return g
          /\ call g [v; context] = body [v])
  /\ (forall name1 name2 body v context,
        exists g,
          make_context_aware (Function (plain [name1; name2]) body) 1 = Return g
          /\ call g [v; context] = body [v; context])
  /\ (forall receiver_name name body v context,
        exists g,
          make_context_aware
            (Method (Some (plain [receiver_name; name])) body) 1 = Return g
          /\ call g [v; context] = body [v]).
Proof.
  split; [|split; [|split; [|split]]].
  - rewrite make_context_aware_unfold.
    destruct (arity f) as [a|]; simpl.
    + destruct (Z.leb_spec a numargs) as [Hle|Hgt]; split; split; intros H;
        try reflexivity; try lia.
      * injection H as H. exfalso. exact (normalized_neq f H).
      * injection H as H. exfalso. exact (normalized_neq f (eq_sym H)).
    + rewrite Z.leb_refl. reflexivity.
  - intros actuals context. simpl. rewrite drop_last_snoc. reflexivity.
  - intros name body v context. eexists. split; reflexivity.
  - intros name1 name2 body v context. eexists. split; reflexivity.
  - intros receiver_name name body v context. eexists. split; reflexivity.
Qed.

(** ** The [error] override *)

Lemma fail_with_template {A : Type} (table : gmap string string)
    (key tmpl : string) (kw : kwargs) :
  table !! key = Some tmpl ->
  ErrorMessagesMixin._fail (A := A) table key kw
  = Raise (ValidationError (MsgStr (format tmpl kw))).
Proof. intros H. unfold ErrorMessagesMixin._fail. rewrite H. reflexivity. Qed.

(** A [ValidationError] of [Range.__call__] comes from [_fail] on one of its
    three keys. *)
Lemma Range_call_raises (self : Range.t) (v context : value) (m : messages) :
  Range.__call__ self v context = Raise (ValidationError m) ->
  exists key, In key ["min"; "max"; "range"]
              /\ Range._fail (A := unit) self key [("data", v)]
                 = Raise (ValidationError m).
Proof.
  unfold Range.__call__.
  destruct (Range.min self) as [a|], (Range.max self) as [b|], v as [|x|s|l];
    simpl; try discriminate.
  - destruct (x <? a); simpl; [|destruct (x >? b); simpl; [|discriminate]];
      intros H; exists "range"; simpl; auto.
  - destruct (x <? a); simpl; [|discriminate].
    intros H; exists "min"; simpl; auto.
  - destruct (x >? b); simpl; [|discriminate].
    intros H; exists "max"; simpl; auto.
Qed.

Lemma Length_call_raises (self : Length.t) (v context : value) (m : messages) :
  Length.__call__ self v context = Raise (ValidationError m) ->
  exists key kw, In key ["exact"; "min"; "max"; "range"]
                 /\ Length._fail (A := unit) self key kw
                    = Raise (ValidationError m).
Proof.
  unfold Length.__call__.
  destruct (len v) as [n|e] eqn:E; simpl;
    [|destruct v; simpl in E; try discriminate E; injection E as <-;
      discriminate].
  destruct (Length.exact self) as [k|].
  - destruct (negb (n =? k)); [|discriminate].
    intros H. exists "exact". eexists. split; [|exact H]. simpl; auto.
  - destruct (Length.min self) as [a|], (Length.max self) as [b|];
      try discriminate.
    + destruct ((n <? a) || (n >? b)); [|discriminate].
      intros H. exists "range". eexists. split; [|exact H]. simpl; auto.
    + destruct (n <? a); [|discriminate].
      intros H. exists "min". eexists. split; [|exact H]. simpl; auto.
    + destruct (n >? b); [|discriminate].
      intros H. exists "max". eexists. split; [|exact H]. simpl; auto.
Qed.

Lemma Unique_loop_raises (self : Unique.t) (items seen : list value)
    (m : messages) :
  Unique.for_items self items seen = Raise (ValidationError m) ->
  exists kw, ErrorMessagesMixin._fail (A := unit) (Unique._error_messages self)
               "unique" kw
             = Raise (ValidationError m).
Proof.
  revert seen. induction items as [|item rest IH]; intros seen; simpl;
    [discriminate|].
  unfold set_contains, set_add.
  destruct (hashable (Unique.key self item)); simpl; [|discriminate].
  destruct (existsb _ seen); simpl.
  - rewrite fail_bind. intros H. eexists.
    unfold ErrorMessagesMixin._fail in *.
    destruct (Unique._error_messages self !! "unique"); exact H.
  - apply IH.
Qed.

(** C7, as stated, fails for [Unique]: its override replaces the template of
    [unique] only. On a value that is not a sequence the instance fails with
    the default text of [invalid], which no formatting of the override
    yields. *)
Lemma Unique_override_leaves_invalid :
  Unique._error_messages unique_with_override !! "invalid"
  = Some "Value should be collection"
  /\ Unique.__call__ unique_with_override (VInt 5) VNone
     = Raise (ValidationError (MsgStr "Value should be collection"))
  /\ ~ (forall key,
          is_Some (Unique.default_error_messages !! key) ->
          Unique._error_messages unique_with_override !! key
          = Some "Duplicate item")
  /\ (forall kw, format "Duplicate item" kw <> "Value should be collection").
Proof.
  split; [reflexivity|]. split; [reflexivity|]. split.
  - intros H. specialize (H "invalid" (ex_intro _ _ eq_refl)).
    vm_compute in H. discriminate H.
  - intros kw. discriminate.
Qed.

(** C7, amended. The override given to [Range] and to [Length] becomes the
    template of every key of the instance, so every validation failure of
    the instance carries the override, formatted. The override given to
    [Unique] becomes the template of [unique], which every failure on a
    sequence carries; the template of [invalid] is the one the instance
    would have without the override. *)
Theorem error_override_spec (e : string) (em : gmap string string) :
  (forall lo hi,
     let self := Range.__init__ lo hi (Some e) em in
     (forall key, In key ["min"; "max"; "range"] ->
        Range._error_messages self !! key = Some e)
     /\ (forall v context m,
           Range.__call__ self v context = Raise (ValidationError m) ->
           exists kw, m = MsgStr (format e kw)))
  /\ (forall exact lo hi,
        let self := Length.__init__ exact lo hi (Some e) em in
        (forall key, In key ["exact"; "min"; "max"; "range"] ->
           Length._error_messages self !! key = Some e)
        /\ (forall v context m,
              Length.__call__ self v context = Raise (ValidationError m) ->
              exists kw, m = MsgStr (format e kw)))
  /\ (forall key,
        let self := Unique.__init__ key (Some e) em in
        Unique._error_messages self !! "unique" = Some e
        /\ Unique._error_messages self !! "invalid"
           = Unique._error_messages (Unique.__init__ key None em) !! "invalid"
        /\ (forall v context m,
              is_sequence v = true ->
              Unique.__call__ self v context = Raise (ValidationError m) ->
              exists kw, m = MsgStr (format e kw))).
Proof.
  split; [|split].
  - intros lo hi self.
    assert (forall key, In key ["min"; "max"; "range"] ->
              Range._error_messages self !! key = Some e) as Hkeys
      by (intros key Hin; apply set_messages_in; exact Hin).
    split; [exact Hkeys|].
    intros v context m H.
    apply Range_call_raises in H. destruct H as (key & Hin & H).
    unfold Range._fail in H.
    rewrite (fail_with_template _ key e _ (Hkeys key Hin)) in H.
    injection H as <-. eauto.
  - intros exact lo hi self.
    assert (forall key, In key ["exact"; "min"; "max"; "range"] ->
              Length._error_messages self !! key = Some e) as Hkeys
      by (intros key Hin; apply set_messages_in; exact Hin).
    split; [exact Hkeys|].
    intros v context m H.
    apply Length_call_raises in H. destruct H as (key & kw & Hin & H).
    unfold Length._fail in H.
    rewrite (fail_with_template _ key e _ (Hkeys key Hin)) in H.
    injection H as <-. eauto.
  - intros key self.
    assert (Unique._error_messages self !! "unique" = Some e) as Hu
      by apply lookup_insert_eq.
    split; [exact Hu|]. split.
    + unfold self, Unique.__init__. cbn [Unique._error_messages].
      apply lookup_insert_ne. discriminate.
    + intros v context m Hseq H.
      unfold Unique.__call__ in H. rewrite Hseq in H. cbn [negb] in H.
      destruct (iter v) as [items|err] eqn:Ei.
      * simpl in H. apply Unique_loop_raises in H. destruct H as (kw & H).
        rewrite (fail_with_template _ _ e _ Hu) in H.
        injection H as <-. eauto.
      * destruct v; simpl in Hseq, Ei; discriminate.
Qed.

(** ** TypeRegistry and TypeRef *)

Lemma M_bind_snd {A B : Type} (m : M A) (k : A -> M B) (w : world) :
  (forall a w', (k a w').2 = w') ->
  ((m ≫= k) w).2 = (m w).2.
Proof.
  intros Hk. unfold mbind, M_bind. destruct (m w) as [[a|e] w']; simpl;
    [apply Hk | reflexivity].
Qed.

(** The state that a use of the reference [ref] leaves is the state that
    reading its [inner_type] leaves. *)
Lemma use_snd (ref : nat) (w : world) (o : op) :
  match o with
  | OpLoad r _ | OpDump r _ | OpHasattr r _ | OpGetattr r _ => r = ref
  | _ => False
  end ->
  run_op w o = (TypeRef.inner_type ref w).2.
Proof.
  destruct o; simpl; try contradiction; intros ->;
    apply M_bind_snd; reflexivity.
Qed.

Lemma inner_type_cached (ref : nat) (t : Type_) (w : world) :
  cached ref t w -> TypeRef.inner_type ref w = (Return t, w).
Proof.
  intros (obj & Hobj & Ht). unfold TypeRef.inner_type.
  rewrite Hobj, Ht. reflexivity.
Qed.

(** Reading [inner_type] leaves the state as it is, or logs one invocation
    of the resolver of a reference that held no target. *)
Lemma inner_type_cases (ref : nat) (w : world) :
  let w' := (TypeRef.inner_type ref w).2 in
  w' = w
  \/ exists obj,
       heap w !! ref = Some obj /\ _inner_type obj = None
       /\ _types w' = _types w
       /\ invocations w' = invocations w ++ [ref]
       /\ (heap w' = heap w
           \/ exists t,
                heap w' = <[ref := {| _get_type := _get_type obj;
                                      _inner_type := Some t |}]> (heap w)).
Proof.
  unfold TypeRef.inner_type.
  destruct (heap w !! ref) as [obj|] eqn:Hobj; [|left; reflexivity].
  destruct (_inner_type obj) as [t|] eqn:Ht; [left; reflexivity|].
  right. exists obj. split; [reflexivity|]. split; [exact Ht|].
  destruct (_get_type obj (_types w)) as [t|e]; simpl; eauto 10.
Qed.

Lemma resolver_invocations_snoc (ref r : nat) (w w' : world) :
  invocations w' = invocations w ++ [r] ->
  resolver_invocations ref w'
  = (resolver_invocations ref w + (if decide (r = ref) then 1 else 0))%nat.
Proof.
  intros H. unfold resolver_invocations. rewrite H, filter_app, length_app.
  f_equal. rewrite filter_cons, filter_nil.
  destruct (decide (r = ref)); reflexivity.
Qed.

Lemma inner_type_keeps (ref r : nat) (t : Type_) (w : world) :
  cached ref t w ->
  let w' := (TypeRef.inner_type r w).2 in
  cached ref t w'
  /\ resolver_invocations ref w' = resolver_invocations ref w
  /\ _types w' = _types w.
Proof.
  intros Hc w'. destruct (inner_type_cases r w)
    as [Heq | (obj & Hobj & Hnone & Hty & Hinv & Hheap)].
  - fold w' in Heq. rewrite Heq. auto.
  - fold w' in Hty, Hinv, Hheap.
    assert (r <> ref) as Hne.
    { intros ->. destruct Hc as (obj' & Hobj' & Ht). congruence. }
    split; [|split; [|exact Hty]].
    + destruct Hc as (obj' & Hobj' & Ht). exists obj'. split; [|exact Ht].
      destruct Hheap as [-> | (t' & ->)]; [exact Hobj'|].
      rewrite list_lookup_insert_ne by exact Hne. exact Hobj'.
    + rewrite (resolver_invocations_snoc ref r w w' Hinv).
      destruct (decide (r = ref)); [contradiction | lia].
Qed.

Lemma run_op_types_stable (o : op) (w : world) (name : string) (t : Type_) :
  _types w !! name = Some t -> _types (run_op w o) !! name = Some t.
Proof.
  intros H. destruct o as [n a|n|n|r a|r a|r n|r n].
  - simpl. unfold TypeRegistry.add. case_decide as Hreg; simpl; [exact H|].
    rewrite lookup_insert_ne; [exact H|].
    intros ->. apply Hreg. eauto.
  - exact H.
  - exact H.
  - rewrite (use_snd r) by reflexivity.
    destruct (inner_type_cases r w) as [-> | (obj & _ & _ & -> & _)]; exact H.
  - rewrite (use_snd r) by reflexivity.
    destruct (inner_type_cases r w) as [-> | (obj & _ & _ & -> & _)]; exact H.
  - rewrite (use_snd r) by reflexivity.
    destruct (inner_type_cases r w) as [-> | (obj & _ & _ & -> & _)]; exact H.
  - rewrite (use_snd r) by reflexivity.
    destruct (inner_type_cases r w) as [-> | (obj & _ & _ & -> & _)]; exact H.
Qed.

Lemma run_ops_types_stable (ops : list op) (w : world) (name : string)
    (t : Type_) :
  _types w !! name = Some t -> _types (run_ops ops w) !! name = Some t.
Proof.
  unfold run_ops. revert w. induction ops as [|o ops IH]; intros w H; simpl.
  - exact H.
  - apply IH. apply run_op_types_stable. exact H.
Qed.

Lemma run_op_cached (o : op) (w : world) (ref : nat) (t : Type_) :
  cached ref t w ->
  cached ref t (run_op w o)
  /\ resolver_invocations ref (run_op w o) = resolver_invocations ref w.
Proof.
  intros Hc. destruct o as [n a|n|n|r a|r a|r n|r n];
    try (rewrite (use_snd r) by reflexivity;
         destruct (inner_type_keeps ref r t w Hc) as (H1 & H2 & _);
         split; [exact H1 | exact H2]).
  - simpl. unfold TypeRegistry.add. case_decide; simpl; auto.
  - simpl. split; [|reflexivity].
    destruct Hc as (obj & Hobj & Ht). exists obj. split; [|exact Ht].
    simpl. rewrite lookup_app_l; [exact Hobj|].
    apply lookup_lt_Some in Hobj. exact Hobj.
  - simpl. split; [|reflexivity].
    destruct Hc as (obj & Hobj & Ht). exists obj. split; [|exact Ht].
    simpl. rewrite lookup_app_l; [exact Hobj|].
    apply lookup_lt_Some in Hobj. exact Hobj.
Qed.

Lemma run_ops_cached (ops : list op) (w : world) (ref : nat) (t : Type_) :
  cached ref t w ->
  cached ref t (run_ops ops w)
  /\ resolver_invocations ref (run_ops ops w) = resolver_invocations ref w.
Proof.
  unfold run_ops. revert w. induction ops as [|o ops IH]; intros w Hc; simpl.
  - auto.
  - destruct (run_op_cached o w ref t Hc) as [Hc' Hn].
    destruct (IH _ Hc') as [Hc'' Hn']. split; [exact Hc'' | congruence].
Qed.

Lemma inner_type_pending (ref : nat) (name : string) (w : world) :
  pending ref name w ->
  TypeRef.inner_type ref w
  = match _types w !! name with
    | Some t => (Return t, resolved ref name t w)
    | None => (Raise (not_registered name), unresolved ref w)
    end.
Proof.
  intros Hp. unfold TypeRef.inner_type. rewrite Hp. simpl.
  unfold TypeRegistry._get. destruct (_types w !! name); reflexivity.
Qed.

(** C8. [add] on a name that is not registered registers the type under it
    and returns the very type it was given; [add] on a registered name raises
    [ValueError] and changes nothing, so a second [add] of a name fails; and
    a registered name stays registered, with the same type, whatever
    operations follow. *)
Theorem TypeRegistry_add_spec (name : string) (a_type : Type_) (w : world) :
  match _types w !! name with
  | None =>
      TypeRegistry.add name a_type w
      = (Return a_type,
         {| _types := <[name := a_type]> (_types w);
            heap := heap w;
            invocations := invocations w |})
      /\ (forall other,
            exists msg,
              TypeRegistry.add name other (TypeRegistry.add name a_type w).2
              = (Raise (ValueError msg), (TypeRegistry.add name a_type w).2))
  | Some t =>
      (exists msg, TypeRegistry.add name a_type w = (Raise (ValueError msg), w))
      /\ (forall ops, _types (run_ops ops w) !! name = Some t)
  end
  /\ (forall ops,
        _types (run_ops ops (TypeRegistry.add name a_type w).2) !! name
        = Some (default a_type (_types w !! name))).
Proof.
  assert (forall t w0, _types w0 !! name = Some t ->
            exists msg, TypeRegistry.add name a_type w0
                        = (Raise (ValueError msg), w0)) as Htaken.
  { intros t w0 H. unfold TypeRegistry.add.
    destruct (decide (is_Some (_types w0 !! name))) as [_|Hn]; [eauto|].
    exfalso. apply Hn. eauto. }
  destruct (_types w !! name) as [t|] eqn:Hreg.
  - split; [split|].
    + apply (Htaken t). exact Hreg.
    + intros ops. apply run_ops_types_stable. exact Hreg.
    + intros ops. apply run_ops_types_stable.
      destruct (Htaken t w Hreg) as (msg & ->). exact Hreg.
  - assert (TypeRegistry.add name a_type w
            = (Return a_type,
               {| _types := <[name := a_type]> (_types w);
                  heap := heap w;
                  invocations := invocations w |})) as Hadd.
    { unfold TypeRegistry.add.
      destruct (decide (is_Some (_types w !! name))) as [[t Ht]|_];
        [congruence | reflexivity]. }
    split; [split|].
    + exact Hadd.
    + intros other. rewrite Hadd. cbn [snd]. unfold TypeRegistry.add.
      cbn [_types]. rewrite lookup_insert_eq.
      destruct (decide (is_Some (Some a_type))) as [_|Hn]; [eauto|].
      exfalso. apply Hn. eauto.
    + intros ops. apply run_ops_types_stable. rewrite Hadd. cbn [snd _types].
      apply lookup_insert_eq.
Qed.

(** C2, as stated, fails: a resolver that raised is invoked again by the
    next use. A reference taken for a name that is never registered and used
    twice has its resolver invoked twice, each use ending in the lookup
    error. *)
Lemma TypeRef_resolver_invoked_twice :
  (TypeRef.load 0 [VNone] (run_ops [OpGet "X"] initial_world)).1
  = Raise (not_registered "X")
  /\ (TypeRef.load 0 [VNone]
        (run_ops [OpGet "X"; OpLoad 0 [VNone]] initial_world)).1
     = Raise (not_registered "X")
  /\ resolver_invocations 0 used_twice = 2%nat
  /\ ~ (resolver_invocations 0 used_twice <= 1)%nat.
Proof.
  assert (resolver_invocations 0 used_twice = 2%nat) as H by reflexivity.
  rewrite H.
  split; [reflexivity|]. split; [reflexivity|]. split; [reflexivity | lia].
Qed.

Lemma use_pending {A : Type} (k : Type_ -> result A) (ref : nat)
    (name : string) (w : world) :
  pending ref name w ->
  (TypeRef.inner_type ref ≫= fun t => lift (k t)) w
  = match _types w !! name with
    | Some t => (k t, resolved ref name t w)
    | None => (Raise (not_registered name), unresolved ref w)
    end.
Proof.
  intros Hp. unfold mbind, M_bind. rewrite (inner_type_pending ref name w Hp).
  destruct (_types w !! name); reflexivity.
Qed.

Lemma use_cached {A : Type} (k : Type_ -> result A) (ref : nat) (t : Type_)
    (w : world) :
  cached ref t w ->
  (TypeRef.inner_type ref ≫= fun t => lift (k t)) w = (k t, w).
Proof.
  intros Hc. unfold mbind, M_bind. rewrite (inner_type_cached ref t w Hc).
  reflexivity.
Qed.

(** C2, amended. [get], like the subscript, allocates a new reference that
    holds no target, without invoking its resolver and leaving the registry's
    table as it is. A use ([load], [dump], attribute access) of a reference
    that holds no target invokes the resolver once: if the name is registered
    by then, the use behaves as the registered type and the reference keeps
    that type; if not, the use raises the lookup error and the reference
    still holds no target, so the next use invokes the resolver again. A
    reference that holds a target behaves as that target without invoking the
    resolver, and holds it whatever operations follow. *)
Theorem TypeRef_spec (name : string) (w : world) :
  (TypeRegistry.get name w
   = (Return (length (heap w)),
      {| _types := _types w;
         heap := heap w ++ [{| _get_type := fun types => TypeRegistry._get types name;
                               _inner_type := None |}];
         invocations := invocations w |})
   /\ TypeRegistry.__getitem__ name w = TypeRegistry.get name w
   /\ pending (length (heap w)) name (TypeRegistry.get name w).2)
  /\ (forall ref actuals attr,
        pending ref name w ->
        match _types w !! name with
        | Some t =>
            let w' := resolved ref name t w in
            TypeRef.load ref actuals w = (load t actuals, w')
            /\ TypeRef.dump ref actuals w = (dump t actuals, w')
            /\ TypeRef.__getattr__ ref attr w = (getattr t attr, w')
            /\ cached ref t w'
            /\ resolver_invocations ref w' = S (resolver_invocations ref w)
        | None =>
            let w' := unresolved ref w in
            TypeRef.load ref actuals w = (Raise (not_registered name), w')
            /\ TypeRef.dump ref actuals w = (Raise (not_registered name), w')
            /\ TypeRef.__getattr__ ref attr w = (Raise (not_registered name), w')
            /\ pending ref name w'
            /\ resolver_invocations ref w' = S (resolver_invocations ref w)
        end)
  /\ (forall ref t actuals attr,
        cached ref t w ->
        TypeRef.load ref actuals w = (load t actuals, w)
        /\ TypeRef.dump ref actuals w = (dump t actuals, w)
        /\ TypeRef.__getattr__ ref attr w = (getattr t attr, w)
        /\ (forall ops,
              cached ref t (run_ops ops w)
              /\ resolver_invocations ref (run_ops ops w)
                 = resolver_invocations ref w)).
Proof.
  split; [|split].
  - split; [reflexivity|]. split; [reflexivity|].
    unfold pending. simpl. rewrite lookup_app_r by lia.
    rewrite Nat.sub_diag. reflexivity.
  - intros ref actuals attr Hp.
    unfold TypeRef.load, TypeRef.dump, TypeRef.__getattr__.
    rewrite !(use_pending _ ref name w Hp).
    assert (ref < length (heap w))%nat as Hlt
      by (apply lookup_lt_Some in Hp; exact Hp).
    destruct (_types w !! name) as [t|]; cbv zeta;
      (split; [reflexivity|]); (split; [reflexivity|]);
      (split; [reflexivity|]); split.
    + eexists. split; [simpl; apply list_lookup_insert_eq; exact Hlt|].
      reflexivity.
    + rewrite (resolver_invocations_snoc ref ref w) by reflexivity.
      rewrite decide_True by reflexivity. lia.
    + exact Hp.
    + rewrite (resolver_invocations_snoc ref ref w) by reflexivity.
      rewrite decide_True by reflexivity. lia.
  - intros ref t actuals attr Hc.
    unfold TypeRef.load, TypeRef.dump, TypeRef.__getattr__.
    rewrite !(use_cached _ ref t w Hc).
    repeat (split; [reflexivity|]).
    intros ops. apply run_ops_cached. exact Hc.
Qed.

Lemma TypeRef_spec_witness :
  pending 0 "X" forward_reference
  /\ (TypeRef.load 0 [VInt 7] forward_reference).1 = Return (VList [VInt 7]).
Proof.
  assert (pending 0 "X" forward_reference) as Hp by reflexivity.
  split; [exact Hp|].
  pose proof (proj1 (proj2 (TypeRef_spec "X" forward_reference))
                0%nat [VInt 7] "name" Hp) as H.
  change (_types forward_reference !! "X") with (Some echo_type) in H.
  cbv zeta in H. destruct H as [H _]. rewrite H. reflexivity.
Defined.

(** ** The matcher against the meaning of expressions *)

Lemma sdrop_length (i : nat) (w : string) :
  String.length (re.sdrop i w) = (String.length w - i)%nat.
Proof.
  revert w. induction i as [|i IH]; intros [|c w]; simpl; try reflexivity.
  apply IH.
Qed.

Lemma sdrop_cons (i : nat) (w : string) (c : ascii) (rest : string) :
  re.sdrop i w = String c rest ->
  String.get i w = Some c /\ re.sdrop (S i) w = rest
  /\ (i < String.length w)%nat.
Proof.
  revert w. induction i as [|i IH]; intros [|d w] H; simpl in *;
    try discriminate.
  - injection H as -> ->. repeat split. lia.
  - destruct (IH w H) as (Hg & Hd & Hl). repeat split; [exact Hg | exact Hd | lia].
Qed.

Lemma get_sdrop (i : nat) (w : string) (c : ascii) :
  String.get i w = Some c ->
  re.sdrop i w = String c (re.sdrop (S i) w) /\ (i < String.length w)%nat.
Proof.
  revert w. induction i as [|i IH]; intros [|d w] H; simpl in *;
    try discriminate.
  - injection H as ->. split; [reflexivity | lia].
  - destruct (IH w H) as (Hd & Hl). split; [exact Hd | lia].
Qed.

Lemma sdrop_all (i : nat) (w : string) :
  (String.length w <= i)%nat -> re.sdrop i w = EmptyString.
Proof.
  revert w. induction i as [|i IH]; intros [|c w] H; simpl in *;
    try reflexivity; try lia.
  apply IH. lia.
Qed.

Lemma at_end_sdrop (i : nat) (w : string) :
  (i <= String.length w)%nat ->
  re.at_end (re.sdrop i w) = true
  <-> i = String.length w
      \/ (S i = String.length w /\ String.get i w = Some re.newline).
Proof.
  intros Hle. destruct (re.sdrop i w) as [|c rest] eqn:E.
  - pose proof (sdrop_length i w) as Hl. rewrite E in Hl. simpl in Hl.
    split; [intros _; left; lia | reflexivity].
  - destruct (sdrop_cons i w c rest E) as (Hg & Hd & Hlt).
    pose proof (sdrop_length (S i) w) as Hl. rewrite Hd in Hl.
    simpl. destruct rest as [|d rest]; simpl in Hl.
    + rewrite Ascii.eqb_eq. split.
      * intros ->. right. split; [lia | exact Hg].
      * intros [H|[_ H]]; [lia | congruence].
    + split; [discriminate|]. intros [H|[H _]]; lia.
Qed.

Section matcher.
Variable w : string.

Lemma star_loop_mono (body : nat -> string -> (nat -> string -> bool) -> bool)
    (fuel : nat) :
  monotone body -> monotone (re.star_loop body fuel).
Proof.
  intros Hb. induction fuel as [|fuel IH]; intros i s k k' Hk; simpl.
  - apply Hk.
  - rewrite !orb_true_iff. intros [H|H]; [left | right; apply Hk; exact H].
    revert H. apply Hb. intros j t. rewrite !andb_true_iff.
    intros [Hlt H]. split; [exact Hlt|]. revert H. apply IH. exact Hk.
Qed.

Lemma match_here_mono (r : re.regex) : monotone (re.match_here r).
Proof.
  induction r as [|c| |neg rs| | |r1 IH1 r2 IH2|r1 IH1 r2 IH2|r IH];
    intros i s k k' Hk; cbn [re.match_here].
  - apply Hk.
  - destruct s as [|d rest]; [discriminate|]. rewrite !andb_true_iff.
    intros [H1 H2]. split; [exact H1 | apply Hk; exact H2].
  - destruct s as [|d rest]; [discriminate|]. rewrite !andb_true_iff.
    intros [H1 H2]. split; [exact H1 | apply Hk; exact H2].
  - destruct s as [|d rest]; [discriminate|]. rewrite !andb_true_iff.
    intros [H1 H2]. split; [exact H1 | apply Hk; exact H2].
  - rewrite !andb_true_iff. intros [H1 H2]. split; [exact H1 | apply Hk; exact H2].
  - rewrite !andb_true_iff. intros [H1 H2]. split; [exact H1 | apply Hk; exact H2].
  - apply IH1. intros j t. apply IH2. exact Hk.
  - rewrite !orb_true_iff. intros [H|H]; [left; revert H; apply IH1
                                         | right; revert H; apply IH2]; exact Hk.
  - apply star_loop_mono; [exact IH | exact Hk].
Qed.

Lemma star_loop_fuel (body : nat -> string -> (nat -> string -> bool) -> bool)
    (fuel fuel' : nat) (i : nat) (s : string) (k : nat -> string -> bool) :
  monotone body -> (fuel <= fuel')%nat ->
  re.star_loop body fuel i s k = true -> re.star_loop body fuel' i s k = true.
Proof.
  intros Hb. revert fuel' i s.
  induction fuel as [|fuel IH]; intros fuel' i s Hle; simpl.
  - intros H. destruct fuel'; simpl; [exact H|]. rewrite H. apply orb_true_r.
  - destruct fuel' as [|fuel']; [lia|]. simpl. rewrite !orb_true_iff.
    intros [H|H]; [left | right; exact H].
    revert H. apply Hb. intros j t. rewrite !andb_true_iff.
    intros [Hlt H]. split; [exact Hlt|]. apply IH; [lia | exact H].
Qed.

Lemma star_loop_sound (r : re.regex) (fuel : nat) :
  sound w r (re.match_here r) ->
  sound w (re.Star r) (re.star_loop (re.match_here r) fuel).
Proof.
  intros Hr. induction fuel as [|fuel IH]; intros i k Hi; simpl.
  - intros H. exists i. split; [constructor|]. split; [lia | exact H].
  - rewrite orb_true_iff. intros [H|H].
    + apply Hr in H; [|exact Hi]. destruct H as (j & Hm & Hj & H).
      rewrite andb_true_iff in H. destruct H as [_ H].
      apply IH in H; [|lia]. destruct H as (j' & Hm' & Hj' & H).
      exists j'. split; [econstructor; eassumption|]. split; [lia | exact H].
    + exists i. split; [constructor|]. split; [lia | exact H].
Qed.

Lemma char_sound (r : re.regex) :
  (forall c i, String.get i w = Some c -> re.accepts r c = true ->
               re.matches w r i (S i)) ->
  forall i k,
    (i <= String.length w)%nat ->
    match re.sdrop i w with
    | String c rest => re.accepts r c && k (S i) rest
    | EmptyString => false
    end = true ->
    exists j, re.matches w r i j
              /\ (i <= j <= String.length w)%nat
              /\ k j (re.sdrop j w) = true.
Proof.
  intros Hc i k Hi H. destruct (re.sdrop i w) as [|c rest] eqn:E;
    [discriminate|].
  rewrite andb_true_iff in H. destruct H as [Ha Hk].
  destruct (sdrop_cons i w c rest E) as (Hg & Hd & Hlt).
  exists (S i). split; [apply (Hc c); assumption|].
  split; [lia|]. rewrite Hd. exact Hk.
Qed.

Lemma match_here_sound (r : re.regex) : sound w r (re.match_here r).
Proof.
  induction r as [|c| |neg rs| | |r1 IH1 r2 IH2|r1 IH1 r2 IH2|r IH];
    intros i k Hi; cbn [re.match_here].
  - intros H. exists i. split; [constructor|]. split; [lia | exact H].
  - apply char_sound; [|exact Hi]. intros d j Hg Ha. simpl in Ha.
    apply Ascii.eqb_eq in Ha. subst d. constructor. exact Hg.
  - apply char_sound; [|exact Hi]. intros d j Hg Ha. simpl in Ha.
    apply (re.MDot w d); [exact Hg|]. intros ->.
    rewrite Ascii.eqb_refl in Ha. discriminate.
  - apply char_sound; [|exact Hi]. intros d j Hg Ha.
    apply (re.MSet w neg rs d); assumption.
  - rewrite andb_true_iff. intros [H0 H]. apply Nat.eqb_eq in H0. subst i.
    exists 0%nat. split; [constructor|]. split; [lia | exact H].
  - rewrite andb_true_iff. intros [He H]. exists i.
    split; [constructor; apply at_end_sdrop; assumption|].
    split; [lia | exact H].
  - intros H. apply IH1 in H; [|exact Hi]. destruct H as (j & Hm & Hj & H).
    apply IH2 in H; [|lia]. destruct H as (j' & Hm' & Hj' & H).
    exists j'. split; [econstructor; eassumption|]. split; [lia | exact H].
  - rewrite orb_true_iff. intros [H|H].
    + apply IH1 in H; [|exact Hi]. destruct H as (j & Hm & Hj & H).
      exists j. split; [apply re.MAltL; exact Hm|]. auto.
    + apply IH2 in H; [|exact Hi]. destruct H as (j & Hm & Hj & H).
      exists j. split; [apply re.MAltR; exact Hm|]. auto.
  - apply star_loop_sound; [exact IH | exact Hi].
Qed.

Lemma matches_bounds (r : re.regex) (i j : nat) :
  re.matches w r i j -> (i <= String.length w)%nat ->
  (i <= j <= String.length w)%nat.
Proof.
  induction 1; intros Hi; try lia;
    try (match goal with
         | H : String.get _ w = Some _ |- _ => apply get_sdrop in H
         end; lia).
Qed.

(** What matches, the matcher accepts. *)
Lemma match_here_complete (r : re.regex) (i j : nat) :
  re.matches w r i j ->
  (i <= String.length w)%nat ->
  forall k, k j (re.sdrop j w) = true ->
            re.match_here r i (re.sdrop i w) k = true.
Proof.
  induction 1 as [i|c i Hg|c i Hg Hn|neg rs c i Hg Hin| |i He
                  |r1 r2 i j l H1 IH1 H2 IH2|r1 r2 i j H1 IH1|r1 r2 i j H2 IH2
                  |r i|r i j l H1 IH1 H2 IH2];
    intros Hi k Hk; cbn [re.match_here].
  - exact Hk.
  - apply get_sdrop in Hg. destruct Hg as [-> _].
    rewrite Hk. simpl. rewrite Ascii.eqb_refl. reflexivity.
  - apply get_sdrop in Hg. destruct Hg as [-> _].
    rewrite Hk. simpl. destruct (Ascii.eqb_spec c re.newline); [contradiction|].
    reflexivity.
  - apply get_sdrop in Hg. destruct Hg as [-> _].
    rewrite Hk. simpl. rewrite Hin. reflexivity.
  - exact Hk.
  - rewrite Hk. apply at_end_sdrop in He; [|exact Hi]. rewrite He. reflexivity.
  - pose proof (matches_bounds _ _ _ H1 Hi).
    apply IH1; [exact Hi|]. apply IH2; [lia | exact Hk].
  - rewrite IH1 by assumption. reflexivity.
  - rewrite IH2 by assumption. apply orb_true_r.
  - cbn [re.star_loop]. rewrite Hk. apply orb_true_r.
  - pose proof (matches_bounds _ _ _ H1 Hi) as Hj.
    destruct (decide (i = j)) as [->|Hne].
    + apply (IH2 Hi k Hk).
    + cbn [re.star_loop]. apply orb_true_iff. left. apply IH1; [exact Hi|].
      apply andb_true_iff. split; [apply Nat.ltb_lt; lia|].
      specialize (IH2 ltac:(lia) k Hk). cbn [re.match_here] in IH2.
      revert IH2. apply star_loop_fuel; [apply match_here_mono|].
      rewrite !sdrop_length. lia.
Qed.

End matcher.

(** [match_] succeeds exactly when the expression matches some prefix of
    the string. *)
Lemma match_spec (p : re.Pattern) (s : string) :
  re.match_ p s = true <-> exists j, re.matches s (re.ast p) 0 j.
Proof.
  unfold re.match_. split.
  - intros H.
    destruct (match_here_sound s (re.ast p) 0%nat (fun _ _ => true)
                ltac:(lia) H) as (j & Hm & _).
    exists j. exact Hm.
  - intros [j Hm].
    apply (match_here_complete s (re.ast p) 0 j Hm); [lia | reflexivity].
Qed.

(** ** Regexp *)

Lemma Regexp_table_known (arg : Regexp.regexp_arg) (flags : Z)
    (error : option string) (em : gmap string string) (self : Regexp.t) :
  Regexp.__init__ arg flags error em = Some self ->
  is_Some (Regexp._error_messages self !! "invalid").
Proof.
  intros H.
  assert (Regexp._error_messages self
          = match error with
            | Some e =>
                <["invalid":=e]>
                  (ErrorMessagesMixin.__init__ Regexp.default_error_messages em)
            | None => ErrorMessagesMixin.__init__ Regexp.default_error_messages em
            end) as ->.
  { unfold Regexp.__init__ in H. destruct arg as [src|p].
    - destruct (re.compile src flags); [|discriminate].
      injection H as <-. reflexivity.
    - injection H as <-. reflexivity. }
  destruct error as [e|].
  - rewrite lookup_insert_eq. eauto.
  - apply init_lookup_is_Some. vm_compute. eauto.
Qed.

(** C9. On a string, [Regexp] fails with key [invalid] exactly when its
    pattern matches no prefix of the string, and succeeds exactly when it
    matches one: the match is anchored at offset 0 and need not reach the end
    of the string. In particular the pattern [^[0-9]+$] accepts [123] and
    rejects [12a] and the empty string, while [[0-9]+] accepts [12a]. *)
Theorem Regexp_call_spec (arg : Regexp.regexp_arg) (flags : Z)
    (error : option string) (em : gmap string string) (self : Regexp.t)
    (s : string) (context : value) :
  Regexp.__init__ arg flags error em = Some self ->
  let kw := fun p x => [("data", VStr x); ("regexp", VStr (re.pattern (Regexp.regexp p)))] in
  (fails_with_key (Regexp._error_messages self) "invalid" (kw self s)
     (Regexp.__call__ self (VStr s) context)
   <-> ~ exists j, re.matches s (re.ast (Regexp.regexp self)) 0 j)
  /\ (Regexp.__call__ self (VStr s) context = Return tt
      <-> exists j, re.matches s (re.ast (Regexp.regexp self)) 0 j)
  /\ (exists digits,
        Regexp.__init__ (Regexp.Source "^[0-9]+$") 0 None ∅ = Some digits
        /\ Regexp.__call__ digits (VStr "123") context = Return tt
        /\ fails_with_key (Regexp._error_messages digits) "invalid"
             (kw digits "12a") (Regexp.__call__ digits (VStr "12a") context)
        /\ fails_with_key (Regexp._error_messages digits) "invalid"
             (kw digits EmptyString)
             (Regexp.__call__ digits (VStr EmptyString) context))
  /\ (exists prefix,
        Regexp.__init__ (Regexp.Source "[0-9]+") 0 None ∅ = Some prefix
        /\ Regexp.__call__ prefix (VStr "12a") context = Return tt).
Proof.
  intros Hinit kw.
  pose proof (fail_known (A := unit) (Regexp._error_messages self) "invalid"
                (kw self s) (Regexp_table_known _ _ _ _ _ Hinit)) as Hfail.
  assert (Regexp.__call__ self (VStr s) context
          = if re.match_ (Regexp.regexp self) s then Return tt
            else ErrorMessagesMixin._fail (Regexp._error_messages self)
                   "invalid" (kw self s)) as Hcall.
  { unfold Regexp.__call__. destruct (re.match_ (Regexp.regexp self) s);
      reflexivity. }
  rewrite Hcall. rewrite <- match_spec.
  split; [|split; [|split]].
  - destruct (re.match_ (Regexp.regexp self) s); split; intros H.
    + exfalso. eapply fails_with_key_not_return, H.
    + congruence.
    + discriminate.
    + exact Hfail.
  - destruct (re.match_ (Regexp.regexp self) s); split; intros H;
      try reflexivity; try discriminate.
    exfalso. eapply fail_not_return, H.
  - eexists. split; [reflexivity|]. split; [reflexivity|].
    split; eexists; split; reflexivity.
  - eexists. split; reflexivity.
Qed.

Lemma Regexp_call_spec_witness :
  exists digits,
    Regexp.__init__ (Regexp.Source "^[0-9]+$") 0 None ∅ = Some digits
    /\ (Regexp.__call__ digits (VStr "123") VNone = Return tt
        <-> exists j, re.matches "123" (re.ast (Regexp.regexp digits)) 0 j).
Proof.
  eexists. split; [reflexivity|].
  apply (Regexp_call_spec (Regexp.Source "^[0-9]+$") 0 None ∅ _ "123" VNone).
  reflexivity.
Defined.

(** * Further properties *)

(** ** Membership validators *)

Lemma contains_In (values : list value) (v : value) :
  contains values v = true <-> In v values.
Proof.
  unfold contains. rewrite existsb_exists. split.
  - intros (x & Hin & Heq). apply value_eqb_eq in Heq. subst. exact Hin.
  - intros Hin. exists v. split; [exact Hin | apply value_eqb_eq; reflexivity].
Qed.

Lemma insert_invalid_known (error : option string) (table : gmap string string) :
  is_Some (table !! "invalid") ->
  is_Some (match error with
           | Some e => <["invalid":=e]> table
           | None => table
           end !! "invalid").
Proof.
  intros H. destruct error as [e|]; [|exact H].
  rewrite lookup_insert_eq. eauto.
Qed.

(** X6. Over one list, [AnyOf] succeeds exactly on the members of the list
    and [NoneOf] exactly on the other values, so exactly one of the two
    accepts a given value; the one that rejects it fails with key
    [invalid]. *)
Theorem membership_validators_spec (l : list value) (e1 e2 : option string)
    (em1 em2 : gmap string string) (v context : value) :
  let any := AnyOf.__init__ l e1 em1 in
  let none := NoneOf.__init__ l e2 em2 in
  (AnyOf.__call__ any v context = Return tt <-> In v l)
  /\ (NoneOf.__call__ none v context = Return tt <-> ~ In v l)
  /\ (fails_with_key (AnyOf._error_messages any) "invalid"
        [("data", v); ("choices", VList l)] (AnyOf.__call__ any v context)
      <-> ~ In v l)
  /\ (fails_with_key (NoneOf._error_messages none) "invalid"
        [("data", v); ("values", VList l)] (NoneOf.__call__ none v context)
      <-> In v l).
Proof.
  intros any none.
  assert (is_Some (AnyOf._error_messages any !! "invalid")) as Ha.
  { apply insert_invalid_known, init_lookup_is_Some. vm_compute. eauto. }
  assert (is_Some (NoneOf._error_messages none !! "invalid")) as Hn.
  { apply insert_invalid_known, init_lookup_is_Some. vm_compute. eauto. }
  pose proof (fail_known (A := unit) _ "invalid"
                [("data", v); ("choices", VList l)] Ha) as Hfa.
  pose proof (fail_known (A := unit) _ "invalid"
                [("data", v); ("values", VList l)] Hn) as Hfn.
  unfold AnyOf.__call__, NoneOf.__call__.
  change (AnyOf.choices any) with l. change (NoneOf.values none) with l.
  pose proof (contains_In l v) as Hc.
  destruct (contains l v); cbn [negb];
    (split; [|split; [|split]]); split; intros H;
    try reflexivity; try tauto;
    try (exfalso; eapply fail_not_return; exact H);
    try (exfalso; eapply fails_with_key_not_return; exact H);
    try (intros Hin; apply Hc in Hin; discriminate);
    try (exfalso; apply H; tauto);
    try (exfalso; apply Hc in H; discriminate H).
Qed.

(** ** Callables and the context *)

Lemma call_with_context_unfold (f : callable) (context : value)
    (actuals : list value) :
  call_with_context f context actuals
  = if default (Z.of_nat (length actuals)) (arity f) <=? Z.of_nat (length actuals)
    then call f actuals
    else call f (actuals ++ [context]).
Proof.
  unfold call_with_context. rewrite make_context_aware_unfold.
  destruct (_ <=? _); cbn [mbind result_bind]; [|reflexivity].
  cbn [call]. rewrite drop_last_snoc. reflexivity.
Qed.

(** X3. [call_with_context] passes the context, after the other arguments,
    exactly to a callable whose inspected arity exceeds the number of those
    arguments; any other callable, and one whose inspection raises
    [TypeError], is called with the arguments alone. *)
Theorem call_with_context_spec (f : callable) (context : value)
    (actuals : list value) :
  match arity f with
  | Some a =>
      (a <= Z.of_nat (length actuals) ->
       call_with_context f context actuals = call f actuals)
      /\ (a > Z.of_nat (length actuals) ->
          call_with_context f context actuals = call f (actuals ++ [context]))
  | None => call_with_context f context actuals = call f actuals
  end.
Proof.
  rewrite call_with_context_unfold. destruct (arity f) as [a|]; simpl.
  - destruct (Z.leb_spec a (Z.of_nat (length actuals))) as [Hle|Hgt]; split;
      intros H; try reflexivity; lia.
  - rewrite Z.leb_refl. reflexivity.
Qed.

Lemma call_with_context_spec_witness :
  call_with_context context_is_truthy (VInt 1) [VInt 0] = Return (VInt 1).
Proof.
  rewrite (proj2 (call_with_context_spec context_is_truthy (VInt 1) [VInt 0]));
    [reflexivity|].
  simpl. lia.
Defined.

(** X1. A [Predicate] behaves as [call_with_context] on its predicate with
    the value as the one argument: it succeeds when the result is truthy,
    fails with key [invalid] when it is not, and lets an exception of the
    predicate through. With a predicate of arity at most one its outcome
    does not depend on the context. *)
Theorem Predicate_call_spec (f : callable) (error : option string)
    (em : gmap string string) :
  exists p,
    Predicate.__init__ f error em = Return p
    /\ is_Some (Predicate._error_messages p !! "invalid")
    /\ (forall v context,
          Predicate.__call__ p v context
          = match call_with_context f context [v] with
            | Return r =>
                if truthy r then Return tt
                else ErrorMessagesMixin._fail (Predicate._error_messages p)
                       "invalid" [("data", v)]
            | Raise e => Raise e
            end)
    /\ (default 1 (arity f) <= 1 ->
        forall v c1 c2,
          Predicate.__call__ p v c1 = Predicate.__call__ p v c2).
Proof.
  unfold Predicate.__init__. rewrite make_context_aware_unfold.
  cbn [mbind result_bind]. eexists. split; [reflexivity|].
  split; [|split].
  - cbn [Predicate._error_messages].
    apply insert_invalid_known, init_lookup_is_Some. vm_compute. eauto.
  - intros v context. unfold Predicate.__call__, call_with_context.
    cbn [Predicate.predicate Predicate._error_messages length Z.of_nat
         Pos.of_succ_nat].
    rewrite make_context_aware_unfold. cbn [mbind result_bind app].
    destruct (call _ [v; context]) as [r|e]; cbn [mbind result_bind];
      [|reflexivity].
    destruct (truthy r); reflexivity.
  - intros Hle v c1 c2. unfold Predicate.__call__.
    cbn [Predicate.predicate].
    destruct (Z.leb_spec (default 1 (arity f)) 1); [|lia].
    reflexivity.
Qed.

Lemma Predicate_call_spec_witness :
  exists p,
    Predicate.__init__ is_truthy None ∅ = Return p
    /\ Predicate.__call__ p (VInt 0) (VInt 1) = Predicate.__call__ p (VInt 0) VNone.
Proof.
  destruct (Predicate_call_spec is_truthy None ∅) as (p & Hp & _ & _ & H).
  exists p. split; [exact Hp|]. apply H. simpl. lia.
Defined.

(** X2. Adapting a callable that [make_context_aware] has already wrapped
    wraps it again, for any non-negative argument count, and each wrapper
    drops one argument: a function of one argument adapted twice is called
    with no argument at all, so a [Predicate] built from an adapted
    one-argument function raises [TypeError] on every value. *)
Theorem make_context_aware_twice (f : callable) (numargs : Z) :
  0 <= numargs ->
  make_context_aware (normalized f) numargs = Return (normalized (normalized f))
  /\ (forall actuals a b,
        call (normalized (normalized f)) (actuals ++ [a; b]) = call f actuals)
  /\ (forall name body error em,
        exists g p,
          make_context_aware (Function (plain [name]) body) 1 = Return g
          /\ Predicate.__init__ g error em = Return p
          /\ forall v context,
               Predicate.__call__ p v context
               = Raise (TypeError "wrong number of positional arguments")).
Proof.
  intros Hn. split; [|split].
  - rewrite make_context_aware_unfold.
    change (default numargs (arity (normalized f))) with 0.
    destruct (Z.leb_spec 0 numargs); [reflexivity | lia].
  - intros actuals a b. cbn [call].
    replace (actuals ++ [a; b]) with ((actuals ++ [a]) ++ [b])
      by (rewrite <- app_assoc; reflexivity).
    rewrite !drop_last_snoc. reflexivity.
  - intros name body error em. eexists. eexists.
    split; [reflexivity|]. split; [reflexivity|].
    intros v context. reflexivity.
Qed.

Lemma make_context_aware_twice_witness :
  make_context_aware (normalized is_truthy) 1
  = Return (normalized (normalized is_truthy)).
Proof. apply (make_context_aware_twice is_truthy 1). lia. Defined.

Lemma binds_keyword_only (name : string) (kw : list string) :
  binds (with_keyword_only name kw) 1 = true
  /\ binds (with_keyword_only name kw) 2 = false.
Proof.
  assert ((length kw <=? length kw)%nat = true) as H by apply Nat.leb_refl.
  unfold binds. simpl. rewrite H. split; reflexivity.
Qed.

(** X4. Keyword-only arguments count toward the arity: a function of one
    positional argument and keyword-only arguments, all with defaults, can
    be called with the value alone, but through [call_with_context] it is
    passed the context as a second positional argument, and the call raises
    [TypeError]. *)
Theorem keyword_only_counts (name : string) (kw : list string)
    (body : list value -> result value) (v context : value) :
  kw <> [] ->
  let f := Function (with_keyword_only name kw) body in
  call f [v] = body [v]
  /\ make_context_aware f 1 = Return f
  /\ call_with_context f context [v]
     = Raise (TypeError "wrong number of positional arguments").
Proof.
  intros Hkw f.
  assert (1 < 1 + Z.of_nat (length kw)) as Hlt
    by (destruct kw; [contradiction | simpl; lia]).
  assert (arity f = Some (1 + Z.of_nat (length kw))) as Ha.
  { unfold arity. simpl. f_equal. lia. }
  split; [|split].
  - unfold f. simpl. rewrite (proj1 (binds_keyword_only name kw)). reflexivity.
  - rewrite make_context_aware_unfold, Ha. cbn [default from_option id].
    destruct (Z.leb_spec (1 + Z.of_nat (length kw)) 1); [lia | reflexivity].
  - rewrite call_with_context_unfold, Ha. cbn [default from_option id].
    change (Z.of_nat (length [v])) with 1.
    destruct (Z.leb_spec (1 + Z.of_nat (length kw)) 1); [lia|].
    unfold f. cbn [call receiver length app Nat.add].
    rewrite (proj2 (binds_keyword_only name kw)). reflexivity.
Qed.

Lemma keyword_only_counts_witness :
  call_with_context
    (Function (with_keyword_only "value" ["strict"]) (fun _ => Return VNone))
    VNone [VInt 1]
  = Raise (TypeError "wrong number of positional arguments").
Proof.
  apply (keyword_only_counts "value" ["strict"] (fun _ => Return VNone)
           (VInt 1) VNone).
  discriminate.
Defined.

(** X5. A default does not lower the arity and variable arguments do not
    raise it: a function whose second argument has a default receives the
    context in its place, and a function that takes variable positional
    arguments only never receives the context. *)
Theorem defaults_and_varargs (name1 name2 : string)
    (body : list value -> result value) (v context : value) :
  call (Function (with_default name1 name2) body) [v] = body [v]
  /\ call_with_context (Function (with_default name1 name2) body) context [v]
     = body [v; context]
  /\ call (Function variadic body) [v; context] = body [v; context]
  /\ call_with_context (Function variadic body) context [v] = body [v].
Proof. repeat split. Qed.

(** ** Each and exceptions other than ValidationError *)

Lemma Each_for_validators_app (vs1 vs2 : list validator) (idx : Z)
    (item : value) (b : ValidationErrorBuilder.t) :
  Each.for_validators (vs1 ++ vs2) idx item b
  = Each.for_validators vs1 idx item b
    ≫= Each.for_validators vs2 idx item.
Proof.
  revert b. induction vs1 as [|v vs1 IH]; intros b; simpl; [reflexivity|].
  destruct (v item VNone) as [|[]]; rewrite ?IH; reflexivity.
Qed.

Lemma Each_for_items_app (vs : list validator) (idx : Z)
    (items1 items2 : list value) (b : ValidationErrorBuilder.t) :
  Each.for_items vs idx (items1 ++ items2) b
  = Each.for_items vs idx items1 b
    ≫= Each.for_items vs (idx + Z.of_nat (length items1)) items2.
Proof.
  revert idx b. induction items1 as [|item items1 IH]; intros idx b.
  - simpl. rewrite Z.add_0_r. reflexivity.
  - cbn [app Each.for_items].
    destruct (Each.for_validators vs idx item b) as [b'|e];
      cbn [mbind result_bind]; [|reflexivity].
    rewrite IH. cbn [length].
    replace (idx + 1 + Z.of_nat (length items1))
      with (idx + Z.of_nat (S (length items1))) by lia.
    reflexivity.
Qed.

(** X7. [Each] catches [ValidationError] only. When, in the order of the
    two loops, the first call that raises anything else raises [e], the
    validator call of [Each] raises [e] itself: the failures recorded before
    are dropped, and the validators and elements that follow are not
    reached. *)
Theorem Each_other_exception_propagates (vs1 vs2 : list validator)
    (v : validator) (pre post : list value) (item : value) (e : exn)
    (em : gmap string string) (context : value) :
  obeys_contract (vs1 ++ v :: vs2) pre ->
  obeys_contract vs1 [item] ->
  v item VNone = Raise e ->
  is_ValidationError e = false ->
  Each.__call__ (Each.__init__ (Each.Many (vs1 ++ v :: vs2)) em)
    (VList (pre ++ item :: post)) context
  = Raise e.
Proof.
  intros Hpre Hitem Hv He. unfold Each.__call__.
  cbn [is_sequence isinstance_Sequence negb iter Each.validators Each.__init__
       mbind result_bind mret result_ret].
  rewrite Each_for_items_app.
  rewrite (Each_for_items_spec _ 0 pre _ Hpre). cbn [mbind result_bind].
  cbn [Each.for_items]. rewrite Each_for_validators_app.
  rewrite (Each_for_validators_spec vs1).
  - cbn [mbind result_bind Each.for_validators]. rewrite Hv.
    destruct e; try reflexivity. discriminate He.
  - intros v' Hin. apply Hitem; [exact Hin | left; reflexivity].
Qed.

Lemma Each_other_exception_propagates_witness :
  Each.__call__ (Each.__init__ (Each.Many ([] ++ not_empty :: [at_most_one])) ∅)
    (VList ([VStr EmptyString] ++ VInt 3 :: [VStr "abc"])) VNone
  = Raise (TypeError "object of type 'int' has no len()").
Proof.
  apply Each_other_exception_propagates.
  - intros v item [<-|[<-|[]]] [<-|[]];
      solve [left; reflexivity | right; eexists; reflexivity].
  - intros v item [].
  - reflexivity.
  - reflexivity.
Defined.

(** ** Unique and its key function *)

Lemma fail_not_TypeError {A : Type} (table : gmap string string)
    (key : string) (kw : kwargs) (msg : string) :
  ErrorMessagesMixin._fail (A := A) table key kw <> Raise (TypeError msg).
Proof.
  unfold ErrorMessagesMixin._fail. destruct (table !! key); discriminate.
Qed.

Lemma Unique_loop_projection (self1 self2 : Unique.t) (items seen : list value) :
  Unique.key self2 = identity ->
  (Unique.for_items self1 items seen = Return tt
   <-> Unique.for_items self2 (map (Unique.key self1) items) seen = Return tt)
  /\ (forall msg,
        Unique.for_items self1 items seen = Raise (TypeError msg)
        <-> Unique.for_items self2 (map (Unique.key self1) items) seen
            = Raise (TypeError msg)).
Proof.
  intros Hid. revert seen. induction items as [|item rest IH]; intros seen.
  - simpl. split; [reflexivity|]. intros msg. reflexivity.
  - cbn [map Unique.for_items]. rewrite Hid. unfold identity.
    unfold set_contains, set_add.
    destruct (hashable (Unique.key self1 item)); cbn [mbind result_bind].
    + destruct (existsb (value_eqb (Unique.key self1 item)) seen).
      * rewrite !fail_bind. split.
        -- split; intros H; exfalso; eapply fail_not_return; exact H.
        -- intros msg. split; intros H; exfalso;
             eapply fail_not_TypeError; exact H.
      * cbn [mbind result_bind]. apply IH.
    + split; [split; discriminate|]. intros msg. reflexivity.
Qed.

(** X8. Uniqueness under a key function is uniqueness of the keys: [Unique]
    with the key function [key] accepts a list exactly when [Unique] with
    the default key accepts the list of the keys, and it raises [TypeError]
    (an unhashable key) exactly when that one does. *)
Theorem Unique_key_projection (key : value -> value) (e1 e2 : option string)
    (em1 em2 : gmap string string) (items : list value) (context : value) :
  let keyed := Unique.__init__ key e1 em1 in
  let plain_ := Unique.__init__ identity e2 em2 in
  (Unique.__call__ keyed (VList items) context = Return tt
   <-> Unique.__call__ plain_ (VList (map key items)) context = Return tt)
  /\ (forall msg,
        Unique.__call__ keyed (VList items) context = Raise (TypeError msg)
        <-> Unique.__call__ plain_ (VList (map key items)) context
            = Raise (TypeError msg)).
Proof.
  intros keyed plain_.
  rewrite (Unique_call_sequence keyed (VList items) context items eq_refl eq_refl).
  rewrite (Unique_call_sequence plain_ (VList (map key items)) context
             (map key items) eq_refl eq_refl).
  apply (Unique_loop_projection keyed plain_ items []). reflexivity.
Qed.

(** ** Naming conventions *)

Lemma upper_lower (c : ascii) :
  is_upper c = true -> is_lower (lower c) = true /\ upper (lower c) = c.
Proof.
  destruct c as [[] [] [] [] [] [] [] []]; intros H;
    try discriminate H; split; reflexivity.
Qed.

Lemma to_snake_case_head (c : ascii) (r : string) :
  exists r', to_snake_case (String c r) = String c r'.
Proof.
  destruct r as [|c2 rest]; simpl; [eauto|].
  destruct (negb (is_underscore c || is_upper c) && is_upper c2); eauto.
Qed.

Lemma no_underscore_lower_tail (c : ascii) (r : string) :
  no_underscore_lower (String c r) = true -> no_underscore_lower r = true.
Proof.
  destruct r as [|c2 rest]; [reflexivity|]. simpl.
  rewrite andb_true_iff. tauto.
Qed.

Lemma to_snake_case_eq (c1 c2 : ascii) (rest : string) :
  to_snake_case (String c1 (String c2 rest))
  = if negb (is_underscore c1 || is_upper c1) && is_upper c2
    then String c1 (String "_" (String (lower c2) (to_snake_case rest)))
    else String c1 (to_snake_case (String c2 rest)).
Proof. reflexivity. Qed.

Lemma to_camel_case_eq (c1 c2 : ascii) (rest : string) :
  to_camel_case (String c1 (String c2 rest))
  = if is_underscore c1 && is_lower c2
    then String (upper c2) (to_camel_case rest)
    else String c1 (to_camel_case (String c2 rest)).
Proof. reflexivity. Qed.

Lemma camel_of_snake_bounded (n : nat) (s : string) :
  (String.length s <= n)%nat ->
  no_underscore_lower s = true ->
  to_camel_case (to_snake_case s) = s.
Proof.
  revert s. induction n as [|n IH]; intros s Hlen Hs.
  - destruct s; [reflexivity | simpl in Hlen; lia].
  - destruct s as [|c1 [|c2 rest]]; try reflexivity.
    pose proof (no_underscore_lower_tail _ _ Hs) as Htl.
    pose proof (no_underscore_lower_tail _ _ Htl) as Hrest.
    cbn [no_underscore_lower] in Hs. apply andb_true_iff in Hs.
    destruct Hs as [Hpair _]. apply negb_true_iff in Hpair.
    cbn [String.length] in Hlen. rewrite to_snake_case_eq.
    destruct (negb (is_underscore c1 || is_upper c1) && is_upper c2) eqn:E.
    + apply andb_true_iff in E. destruct E as [E1 E2].
      apply negb_true_iff, orb_false_iff in E1. destruct E1 as [E1 _].
      destruct (upper_lower c2 E2) as [Hl Hu].
      rewrite to_camel_case_eq, E1. cbn [andb].
      rewrite to_camel_case_eq.
      change (is_underscore "_") with true. rewrite Hl. cbn [andb].
      rewrite Hu, IH; [reflexivity | lia | exact Hrest].
    + destruct (to_snake_case_head c2 rest) as [r' Hr'].
      assert (to_camel_case (to_snake_case (String c2 rest)) = String c2 rest)
        as Htail by (apply IH; [simpl; lia | exact Htl]).
      rewrite Hr' in *. rewrite to_camel_case_eq, Hpair, Htail.
      reflexivity.
Qed.

(** X9. Converting to snake case and back to camel case gives the string
    back, for every string in which no underscore is followed by a
    lower-case letter. *)
Theorem to_camel_case_to_snake_case (s : string) :
  no_underscore_lower s = true ->
  to_camel_case (to_snake_case s) = s.
Proof. apply (camel_of_snake_bounded (String.length s)). lia. Qed.

Lemma to_camel_case_to_snake_case_witness :
  to_camel_case (to_snake_case "loadFromHTTPResponse") = "loadFromHTTPResponse".
Proof. apply to_camel_case_to_snake_case. reflexivity. Defined.

Lemma to_camel_case_bounded (n : nat) (s : string) :
  (String.length s <= n)%nat ->
  (String.length (to_camel_case s) <= String.length s)%nat
  /\ (no_underscore_lower s = true -> to_camel_case s = s)
  /\ (no_underscore_lower s = false ->
      (String.length (to_camel_case s) < String.length s)%nat).
Proof.
  revert s. induction n as [|n IH]; intros s Hlen.
  - destruct s; [|simpl in Hlen; lia].
    split; [reflexivity|]. split; [reflexivity | discriminate].
  - destruct s as [|c1 [|c2 rest]];
      try (split; [reflexivity|]; split; [reflexivity | discriminate]).
    cbn [String.length] in Hlen.
    rewrite to_camel_case_eq.
    change (no_underscore_lower (String c1 (String c2 rest)))
      with (negb (is_underscore c1 && is_lower c2)
            && no_underscore_lower (String c2 rest)).
    destruct (is_underscore c1 && is_lower c2); cbn [negb andb].
    + destruct (IH rest ltac:(lia)) as [Hle _]. cbn [String.length].
      split; [lia|]. split; [discriminate | intros _; lia].
    + destruct (IH (String c2 rest) ltac:(simpl; lia)) as (Hle & Heq & Hlt).
      cbn [String.length] in *. split; [lia|]. split.
      * intros H. rewrite (Heq H). reflexivity.
      * intros H. specialize (Hlt H). lia.
Qed.

Lemma to_snake_case_bounded (n : nat) (s : string) :
  (String.length s <= n)%nat ->
  (String.length s <= String.length (to_snake_case s))%nat
  /\ (no_hump s = true -> to_snake_case s = s)
  /\ (no_hump s = false ->
      (String.length s < String.length (to_snake_case s))%nat).
Proof.
  revert s. induction n as [|n IH]; intros s Hlen.
  - destruct s; [|simpl in Hlen; lia].
    split; [reflexivity|]. split; [reflexivity | discriminate].
  - destruct s as [|c1 [|c2 rest]];
      try (split; [reflexivity|]; split; [reflexivity | discriminate]).
    cbn [String.length] in Hlen.
    rewrite to_snake_case_eq.
    change (no_hump (String c1 (String c2 rest)))
      with (negb (negb (is_underscore c1 || is_upper c1) && is_upper c2)
            && no_hump (String c2 rest)).
    destruct (negb (is_underscore c1 || is_upper c1) && is_upper c2);
      cbn [negb andb].
    + destruct (IH rest ltac:(lia)) as [Hle _]. cbn [String.length].
      split; [lia|]. split; [discriminate | intros _; lia].
    + destruct (IH (String c2 rest) ltac:(simpl; lia)) as (Hle & Heq & Hlt).
      cbn [String.length] in *. split; [lia|]. split.
      * intros H. rewrite (Heq H). reflexivity.
      * intros H. specialize (Hlt H). lia.
Qed.

(** X10. [to_snake_case] never shortens a string and [to_camel_case] never
    lengthens one, and each leaves a string as it is exactly when its
    pattern occurs nowhere in it: [to_snake_case] when no upper-case letter
    follows a character other than an underscore or an upper-case letter,
    [to_camel_case] when no underscore is followed by a lower-case letter. *)
Theorem naming_fixed_points (s : string) :
  (to_snake_case s = s <-> no_hump s = true)
  /\ (to_camel_case s = s <-> no_underscore_lower s = true)
  /\ (String.length s <= String.length (to_snake_case s))%nat
  /\ (String.length (to_camel_case s) <= String.length s)%nat.
Proof.
  destruct (to_snake_case_bounded (String.length s) s ltac:(lia))
    as (Hs1 & Hs2 & Hs3).
  destruct (to_camel_case_bounded (String.length s) s ltac:(lia))
    as (Hc1 & Hc2 & Hc3).
  split; [|split; [|split; assumption]].
  - split; [|exact Hs2]. intros Heq.
    destruct (no_hump s); [reflexivity|].
    specialize (Hs3 eq_refl). rewrite Heq in Hs3. lia.
  - split; [|exact Hc2]. intros Heq.
    destruct (no_underscore_lower s); [reflexivity|].
    specialize (Hc3 eq_refl). rewrite Heq in Hc3. lia.
Qed.

(** ** Dicts *)

Lemma value_eqb_refl (v : value) : value_eqb v v = true.
Proof. apply value_eqb_eq. reflexivity. Qed.

Lemma value_eqb_neq (a b : value) : a <> b -> value_eqb a b = false.
Proof.
  intros H. destruct (value_eqb a b) eqn:E; [|reflexivity].
  apply value_eqb_eq in E. contradiction.
Qed.

Lemma dict_lookup_store_eq (key v : value) (d : pydict) :
  dict_lookup key (dict_store key v d) = Some v.
Proof.
  induction d as [|[k x] d IH]; simpl.
  - rewrite value_eqb_refl. reflexivity.
  - destruct (value_eqb k key) eqn:E; simpl; rewrite E; [reflexivity | exact IH].
Qed.

Lemma dict_lookup_store_ne (key key' v : value) (d : pydict) :
  key' <> key ->
  dict_lookup key' (dict_store key v d) = dict_lookup key' d.
Proof.
  intros Hne. induction d as [|[k x] d IH]; simpl.
  - rewrite value_eqb_neq by congruence. reflexivity.
  - destruct (value_eqb k key) eqn:E; simpl.
    + apply value_eqb_eq in E. subst k.
      rewrite value_eqb_neq by congruence. reflexivity.
    + rewrite IH. reflexivity.
Qed.

Lemma dict_lookup_remove_eq (key : value) (d : pydict) :
  dict_lookup key (dict_remove key d) = None.
Proof.
  induction d as [|[k x] d IH]; simpl; [reflexivity|].
  destruct (value_eqb k key) eqn:E; simpl; [exact IH|].
  rewrite E. exact IH.
Qed.

Lemma dict_lookup_remove_ne (key key' : value) (d : pydict) :
  key' <> key ->
  dict_lookup key' (dict_remove key d) = dict_lookup key' d.
Proof.
  intros Hne. induction d as [|[k x] d IH]; simpl; [reflexivity|].
  destruct (value_eqb k key) eqn:E; simpl.
  - apply value_eqb_eq in E. subst k.
    rewrite value_eqb_neq by congruence. exact IH.
  - rewrite IH. reflexivity.
Qed.

Lemma deref_insert (st : store) (a : nat) (d : pydict) :
  (a < length st)%nat -> deref (<[a := d]> st) a = d.
Proof.
  intros H. unfold deref. rewrite list_lookup_insert_eq by exact H. reflexivity.
Qed.

Lemma deref_insert_ne (st : store) (a b : nat) (d : pydict) :
  a <> b -> deref (<[a := d]> st) b = deref st b.
Proof.
  intros H. unfold deref. rewrite list_lookup_insert_ne by exact H. reflexivity.
Qed.

(** X11. Storing a value under a hashable key of a [DictWithDefault]
    succeeds; afterwards the subscript and [get], whatever default [get] is
    given, return that value, the key is contained, and every other key
    reads as before. *)
Theorem DictWithDefault_set_get (self : DictWithDefault.t) (key v : value)
    (st : store) :
  hashable key = true ->
  (DictWithDefault._values self < length st)%nat ->
  let st' := (DictWithDefault.__setitem__ self key v st).2 in
  (DictWithDefault.__setitem__ self key v st).1 = Return tt
  /\ DictWithDefault.__getitem__ self key st' = Return v
  /\ (forall d, DictWithDefault.get self key d st' = Return v)
  /\ DictWithDefault.__contains__ self key st' = Return true
  /\ (forall key', key' <> key ->
        DictWithDefault.__getitem__ self key' st'
        = DictWithDefault.__getitem__ self key' st).
Proof.
  intros Hh Hvalid st'.
  assert (st' = <[DictWithDefault._values self :=
                    dict_store key v (deref st (DictWithDefault._values self))]> st)
    as Hst.
  { unfold st', DictWithDefault.__setitem__, dict_setitem. rewrite Hh.
    reflexivity. }
  assert (deref st' (DictWithDefault._values self)
          = dict_store key v (deref st (DictWithDefault._values self))) as Hd.
  { rewrite Hst. apply deref_insert. exact Hvalid. }
  split; [|split; [|split; [|split]]].
  - unfold DictWithDefault.__setitem__, dict_setitem. rewrite Hh. reflexivity.
  - unfold DictWithDefault.__getitem__, dict_contains, dict_getitem.
    rewrite Hd, Hh, dict_lookup_store_eq. reflexivity.
  - intros d. unfold DictWithDefault.get, dict_contains, dict_getitem.
    rewrite Hd, Hh, dict_lookup_store_eq. reflexivity.
  - unfold DictWithDefault.__contains__, dict_contains.
    rewrite Hd, Hh, dict_lookup_store_eq. reflexivity.
  - intros key' Hne.
    unfold DictWithDefault.__getitem__, dict_contains, dict_getitem.
    rewrite Hd, (dict_lookup_store_ne key key' v _ Hne). reflexivity.
Qed.

Lemma DictWithDefault_set_get_witness :
  DictWithDefault.__getitem__ {| DictWithDefault._values := 0;
                                 DictWithDefault.default := VNone |}
    (VStr "a")
    (DictWithDefault.__setitem__ {| DictWithDefault._values := 0;
                                    DictWithDefault.default := VNone |}
       (VStr "a") (VInt 1) [[]]).2
  = Return (VInt 1).
Proof.
  apply (DictWithDefault_set_get
           {| DictWithDefault._values := 0; DictWithDefault.default := VNone |}
           (VStr "a") (VInt 1) [[]]).
  - reflexivity.
  - simpl. lia.
Defined.

(** X12. Deleting a key that a [DictWithDefault] contains succeeds, and
    afterwards the key is not contained and reads as the default; deleting a
    key it does not contain raises [KeyError] and leaves the store as it
    was. Other keys read as before in both cases. *)
Theorem DictWithDefault_delete (self : DictWithDefault.t) (key : value)
    (st : store) :
  hashable key = true ->
  (DictWithDefault._values self < length st)%nat ->
  let r := (DictWithDefault.__delitem__ self key st).1 in
  let st' := (DictWithDefault.__delitem__ self key st).2 in
  (DictWithDefault.__contains__ self key st = Return true ->
   r = Return tt
   /\ DictWithDefault.__contains__ self key st' = Return false
   /\ DictWithDefault.__getitem__ self key st'
      = Return (DictWithDefault.default self))
  /\ (DictWithDefault.__contains__ self key st = Return false ->
      r = Raise (KeyError (repr key)) /\ st' = st)
  /\ (forall key', key' <> key ->
        DictWithDefault.__getitem__ self key' st'
        = DictWithDefault.__getitem__ self key' st).
Proof.
  intros Hh Hvalid r st'. subst r st'.
  unfold DictWithDefault.__delitem__, DictWithDefault.__contains__,
    DictWithDefault.__getitem__, dict_delitem, dict_contains, dict_getitem.
  rewrite Hh.
  destruct (dict_lookup key (deref st (DictWithDefault._values self))) as [x|]
    eqn:E; cbn [update fst snd].
  - rewrite deref_insert by exact Hvalid.
    rewrite dict_lookup_remove_eq. split; [|split].
    + intros _. repeat split.
    + discriminate.
    + intros key' Hne. rewrite (dict_lookup_remove_ne key key' _ Hne).
      reflexivity.
  - split; [|split].
    + discriminate.
    + intros _. split; reflexivity.
    + reflexivity.
Qed.

Lemma DictWithDefault_delete_witness :
  (DictWithDefault.__delitem__ {| DictWithDefault._values := 0;
                                  DictWithDefault.default := VInt 9 |}
     (VStr "a") [[]]).1
  = Raise (KeyError (repr (VStr "a"))).
Proof.
  apply (DictWithDefault_delete
           {| DictWithDefault._values := 0; DictWithDefault.default := VInt 9 |}
           (VStr "a") [[]]); [reflexivity | simpl; lia | reflexivity].
Defined.

(** X13. A key that a [DictWithDefault] does not contain reads as the
    default of the instance through the subscript and through [get] without
    a default, and as the default passed to [get] when one is passed, even
    [None]; an unhashable key raises [TypeError] in all of them. *)
Theorem DictWithDefault_missing_key (self : DictWithDefault.t) (key : value)
    (st : store) :
  (DictWithDefault.__contains__ self key st = Return false ->
   DictWithDefault.__getitem__ self key st
   = Return (DictWithDefault.default self)
   /\ DictWithDefault.get self key None st
      = Return (DictWithDefault.default self)
   /\ forall x, DictWithDefault.get self key (Some x) st = Return x)
  /\ (hashable key = false ->
      DictWithDefault.__contains__ self key st
      = Raise (TypeError "unhashable type")
      /\ DictWithDefault.__getitem__ self key st
         = Raise (TypeError "unhashable type")
      /\ forall d, DictWithDefault.get self key d st
                   = Raise (TypeError "unhashable type")).
Proof.
  unfold DictWithDefault.__contains__, DictWithDefault.__getitem__,
    DictWithDefault.get.
  split.
  - intros H. rewrite H. repeat split.
  - intros H. unfold dict_contains. rewrite H. repeat split.
Qed.

(** X14. [DictWithDefault] and [OpenStruct] keep the dict they are given
    only when it is not empty. Given a dict that has items, the instance
    writes into that very dict; given an empty dict, the instance allocates
    a dict of its own, and a write through the instance leaves the given
    dict empty. *)
Theorem given_dict_shared_unless_empty (a : nat) (d : pydict)
    (default key v : value) (st : store) :
  st !! a = Some d ->
  hashable key = true ->
  let wrapped := DictWithDefault.__init__ (Some a) default st in
  let opened := OpenStruct.__init__ (Some a) st in
  (d <> [] ->
   DictWithDefault._values wrapped.1 = a
   /\ deref (DictWithDefault.__setitem__ wrapped.1 key v wrapped.2).2 a
      = dict_store key v d
   /\ OpenStruct._data opened.1 = a
   /\ deref (OpenStruct.__setitem__ opened.1 key v opened.2).2 a
      = dict_store key v d)
  /\ (d = [] ->
      DictWithDefault._values wrapped.1 = length st
      /\ deref (DictWithDefault.__setitem__ wrapped.1 key v wrapped.2).2 a = []
      /\ DictWithDefault.__getitem__ wrapped.1 key
           (DictWithDefault.__setitem__ wrapped.1 key v wrapped.2).2
         = Return v
      /\ OpenStruct._data opened.1 = length st
      /\ deref (OpenStruct.__setitem__ opened.1 key v opened.2).2 a = []).
Proof.
  intros Ha Hh wrapped opened.
  pose proof (lookup_lt_Some _ _ _ Ha) as Hlt.
  subst wrapped opened.
  unfold DictWithDefault.__init__, OpenStruct.__init__, or_new_dict.
  rewrite Ha. split.
  - intros Hne. destruct d as [|item d]; [contradiction|].
    cbn [fst snd DictWithDefault._values OpenStruct._data].
    unfold DictWithDefault.__setitem__, OpenStruct.__setitem__, dict_setitem.
    rewrite Hh. cbn [update snd DictWithDefault._values OpenStruct._data].
    rewrite deref_insert by exact Hlt.
    unfold deref. rewrite Ha. repeat split.
  - intros ->.
    cbn [fst snd DictWithDefault._values OpenStruct._data].
    unfold DictWithDefault.__setitem__, OpenStruct.__setitem__,
      DictWithDefault.__getitem__, dict_setitem, dict_contains, dict_getitem.
    rewrite Hh. cbn [update snd DictWithDefault._values OpenStruct._data].
    rewrite deref_insert by (rewrite length_app; simpl; lia).
    rewrite deref_insert_ne by lia.
    assert (deref (st ++ [[]]) a = []) as Hda.
    { unfold deref. rewrite lookup_app_l by exact Hlt. rewrite Ha. reflexivity. }
    rewrite Hda, dict_lookup_store_eq. repeat split.
Qed.

Lemma given_dict_shared_unless_empty_witness :
  deref (DictWithDefault.__setitem__
           (DictWithDefault.__init__ (Some 0%nat) VNone [[]]).1 (VStr "a") (VInt 1)
           (DictWithDefault.__init__ (Some 0%nat) VNone [[]]).2).2 0
  = [].
Proof.
  apply (proj2 (given_dict_shared_unless_empty 0 [] VNone (VStr "a") (VInt 1)
                  [[]] eq_refl eq_refl)).
  reflexivity.
Defined.

(** X15. Attribute access on an [OpenStruct] reads and writes the same
    items as the subscript, under the attribute's name. After an attribute
    is set, the attribute and the item both read as the value set. A name
    that is not stored raises [AttributeError] as an attribute and
    [KeyError] as an item; deleting it as an attribute raises
    [AttributeError] and leaves the store as it was, and deleting a stored
    attribute makes the name absent. *)
Theorem OpenStruct_attributes (self : OpenStruct.t) (name : string)
    (v : value) (st : store) :
  (OpenStruct._data self < length st)%nat ->
  let st' := (OpenStruct.__setattr__ self name v st).2 in
  let st'' := (OpenStruct.__delattr__ self name st).2 in
  ((OpenStruct.__setattr__ self name v st).1 = Return tt
   /\ OpenStruct.__getattr__ self name st' = Return v
   /\ OpenStruct.__getitem__ self (VStr name) st' = Return v
   /\ OpenStruct.__hasattr__ self name st' = Return true)
  /\ (OpenStruct.__hasattr__ self name st = Return false ->
      OpenStruct.__getattr__ self name st = Raise (AttributeError name)
      /\ OpenStruct.__getitem__ self (VStr name) st
         = Raise (KeyError (repr (VStr name)))
      /\ OpenStruct.__delattr__ self name st = (Raise (AttributeError name), st))
  /\ (OpenStruct.__hasattr__ self name st = Return true ->
      (OpenStruct.__delattr__ self name st).1 = Return tt
      /\ OpenStruct.__hasattr__ self name st'' = Return false
      /\ OpenStruct.__getattr__ self name st'' = Raise (AttributeError name)).
Proof.
  intros Hvalid st' st''. subst st' st''.
  unfold OpenStruct.__setattr__, OpenStruct.__getattr__, OpenStruct.__getitem__,
    OpenStruct.__hasattr__, OpenStruct.__delattr__,
    dict_setitem, dict_contains, dict_getitem, dict_delitem.
  cbn [hashable update fst snd].
  split; [|split].
  - rewrite deref_insert by exact Hvalid.
    rewrite dict_lookup_store_eq. repeat split.
  - destruct (dict_lookup (VStr name) (deref st (OpenStruct._data self)));
      [discriminate|].
    intros _. repeat split.
  - destruct (dict_lookup (VStr name) (deref st (OpenStruct._data self)));
      [|discriminate].
    intros _. cbn [update fst snd].
    rewrite deref_insert by exact Hvalid.
    rewrite dict_lookup_remove_eq. repeat split.
Qed.

Lemma OpenStruct_attributes_witness :
  OpenStruct.__getattr__ {| OpenStruct._data := 0 |} "x"
    (OpenStruct.__setattr__ {| OpenStruct._data := 0 |} "x" (VInt 1) [[]]).2
  = Return (VInt 1).
Proof.
  apply (OpenStruct_attributes {| OpenStruct._data := 0 |} "x" (VInt 1) [[]]).
  simpl. lia.
Defined.

(** ** The registry and its references *)

Lemma consistent_add (name : string) (a_type : Type_) (w : world) :
  consistent w -> consistent (run_op w (OpAdd name a_type)).
Proof.
  intros Hc ref obj Hobj. simpl in *. unfold TypeRegistry.add in *.
  destruct (decide (is_Some (_types w !! name))) as [Hreg|Hreg];
    simpl in *; [exact (Hc ref obj Hobj)|].
  destruct (Hc ref obj Hobj) as (n & Hget & Hcache).
  exists n. split; [exact Hget|]. intros t Ht.
  rewrite lookup_insert_ne; [apply Hcache; exact Ht|].
  intros ->. apply Hreg. rewrite (Hcache t Ht). eauto.
Qed.

Lemma consistent_get (name : string) (w : world) :
  consistent w -> consistent (TypeRegistry.get name w).2.
Proof.
  intros Hc ref obj Hobj. simpl in *.
  apply lookup_app_Some in Hobj. destruct Hobj as [Hobj|[_ Hobj]].
  - exact (Hc ref obj Hobj).
  - destruct (ref - length (heap w))%nat; simpl in Hobj; [|discriminate].
    injection Hobj as <-. exists name. split; [reflexivity | discriminate].
Qed.

Lemma consistent_inner_type (r : nat) (w : world) :
  consistent w -> consistent (TypeRef.inner_type r w).2.
Proof.
  intros Hc. unfold TypeRef.inner_type.
  destruct (heap w !! r) as [o|] eqn:Ho; [|exact Hc].
  destruct (_inner_type o) as [t|] eqn:Ht; [exact Hc|].
  destruct (Hc r o Ho) as (n & Hget & _).
  rewrite Hget. unfold TypeRegistry._get.
  destruct (_types w !! n) as [t|] eqn:Hn; simpl.
  - intros ref obj Hobj. simpl in Hobj.
    destruct (decide (r = ref)) as [<-|Hne].
    + rewrite list_lookup_insert_eq in Hobj
        by (apply lookup_lt_Some in Ho; exact Ho).
      injection Hobj as <-. exists n. split; [reflexivity|].
      simpl. intros t' [= <-]. exact Hn.
    + rewrite list_lookup_insert_ne in Hobj by exact Hne.
      exact (Hc ref obj Hobj).
  - exact Hc.
Qed.

Lemma consistent_run_op (o : op) (w : world) :
  consistent w -> consistent (run_op w o).
Proof.
  intros Hc. destruct o as [n a|n|n|r a|r a|r n|r n];
    try (rewrite (use_snd r) by reflexivity; apply consistent_inner_type;
         exact Hc).
  - apply consistent_add. exact Hc.
  - apply consistent_get. exact Hc.
  - apply consistent_get. exact Hc.
Qed.

(** X16. In every state that a program over a new registry reaches, a
    reference that holds a target holds the type registered under the name
    the reference was taken for: no sequence of [add], [get], subscript,
    [load], [dump] and attribute accesses makes a reference and the registry
    disagree. *)
Theorem registry_references_consistent (ops : list op) :
  consistent (run_ops ops initial_world).
Proof.
  assert (forall w, consistent w -> consistent (run_ops ops w)) as H.
  { unfold run_ops. induction ops as [|o ops IH]; intros w Hc; simpl.
    - exact Hc.
    - apply IH. apply consistent_run_op. exact Hc. }
  apply H. intros ref obj Hobj. discriminate Hobj.
Qed.

(** X17. Registrations of two different names commute: in either order
    they leave the same state, also when one of the names, or both, were
    registered before. *)
Theorem add_commutes (name1 name2 : string) (t1 t2 : Type_) (w : world) :
  name1 <> name2 ->
  run_ops [OpAdd name1 t1; OpAdd name2 t2] w
  = run_ops [OpAdd name2 t2; OpAdd name1 t1] w.
Proof.
  intros Hne. unfold run_ops. simpl. unfold TypeRegistry.add.
  assert (forall t, <[name1:=t]> (_types w) !! name2 = _types w !! name2) as E12
    by (intros t; apply lookup_insert_ne; congruence).
  assert (forall t, <[name2:=t]> (_types w) !! name1 = _types w !! name1) as E21
    by (intros t; apply lookup_insert_ne; congruence).
  destruct (decide (is_Some (_types w !! name1))) as [H1|H1];
    destruct (decide (is_Some (_types w !! name2))) as [H2|H2];
    cbn [snd _types heap invocations]; rewrite ?E12, ?E21;
    repeat first [rewrite (decide_True _ _ H1) | rewrite (decide_True _ _ H2)
                 | rewrite (decide_False _ _ H1) | rewrite (decide_False _ _ H2)];
    cbn [snd _types heap invocations]; try reflexivity.
  rewrite insert_insert_ne by congruence. reflexivity.
Qed.

Lemma add_commutes_witness :
  run_ops [OpAdd "Person" echo_type; OpAdd "Book" echo_type] initial_world
  = run_ops [OpAdd "Book" echo_type; OpAdd "Person" echo_type] initial_world.
Proof. apply add_commutes. discriminate. Defined.

(** ** Bounds that nothing satisfies *)

Lemma len_nonneg (v : value) (n : Z) : len v = Return n -> 0 <= n.
Proof. destruct v; simpl; intros [= <-]; lia. Qed.

(** X18. Bounds that exclude each other are accepted by the constructors
    and reject every value: a [Range] whose [max] is below its [min] fails
    with key [range] on every integer, a [Length] whose [max] is below its
    [min] fails with key [range] on every value that has a length, and a
    [Length] with a negative [exact] fails with key [exact] on every such
    value. *)
Theorem unsatisfiable_bounds (lo hi k x : Z) (error : option string)
    (em : gmap string string) (v : value) (n : Z) (context : value) :
  len v = Return n ->
  let range := Range.__init__ (Some lo) (Some hi) error em in
  let ranged := Length.__init__ None (Some lo) (Some hi) error em in
  let exactly := Length.__init__ (Some k) None None error em in
  (hi < lo ->
   fails_with_key (Range._error_messages range) "range"
     (Range_kwargs range (VInt x)) (Range.__call__ range (VInt x) context)
   /\ fails_with_key (Length._error_messages ranged) "range"
        (Length_kwargs ranged v n) (Length.__call__ ranged v context))
  /\ (k < 0 ->
      fails_with_key (Length._error_messages exactly) "exact"
        (Length_kwargs exactly v n) (Length.__call__ exactly v context)).
Proof.
  intros Hlen range ranged exactly.
  pose proof (len_nonneg v n Hlen) as Hn.
  split.
  - intros Hlt. split.
    + rewrite Range_call_verdict.
      cbn [Range.min Range.max Range.__init__ range range_verdict].
      destruct (decide (lo <= x <= hi)); [lia|].
      apply (Range_fail_known (Some lo) (Some hi) error em "range" (VInt x)).
      simpl; tauto.
    + rewrite (Length_call_verdict ranged v n context Hlen eq_refl).
      cbn [Length.min Length.max Length.__init__ ranged range_verdict].
      destruct (decide (lo <= n <= hi)); [lia|].
      apply (Length_fail_known None (Some lo) (Some hi) error em "range" v n).
      simpl; tauto.
  - intros Hk.
    rewrite (Length_call_exact exactly v n k context Hlen eq_refl).
    destruct (decide (n = k)); [lia|].
    apply (Length_fail_known (Some k) None None error em "exact" v n).
    simpl; tauto.
Qed.

Lemma unsatisfiable_bounds_witness :
  fails_with_key
    (Length._error_messages (Length.__init__ (Some (-1)) None None None ∅))
    "exact"
    (Length_kwargs (Length.__init__ (Some (-1)) None None None ∅)
       (VStr EmptyString) 0)
    (Length.__call__ (Length.__init__ (Some (-1)) None None None ∅)
       (VStr EmptyString) VNone).
Proof.
  apply (proj2 (unsatisfiable_bounds 0 0 (-1) 0 None ∅ (VStr EmptyString) 0
                  VNone eq_refl)).
  lia.
Defined.

(** ** Each on a concatenation *)

Lemma failures_at_shift (vs : list validator) (i j : Z) (item : value) :
  failures_at vs i item = [] -> failures_at vs j item = [].
Proof.
  unfold failures_at. induction vs as [|v vs IH]; simpl; [reflexivity|].
  destruct (v item VNone) as [|[]]; simpl; try exact IH; discriminate.
Qed.

Lemma failures_shift (vs : list validator) (i j : Z) (items : list value) :
  failures vs i items = [] -> failures vs j items = [].
Proof.
  revert i j. induction items as [|item rest IH]; intros i j; simpl;
    [reflexivity|].
  intros H. apply app_eq_nil in H. destruct H as [H1 H2].
  rewrite (failures_at_shift vs i j item H1). simpl.
  apply (IH (i + 1) (j + 1)). exact H2.
Qed.

Lemma failures_app (vs : list validator) (idx : Z) (l1 l2 : list value) :
  failures vs idx (l1 ++ l2)
  = failures vs idx l1 ++ failures vs (idx + Z.of_nat (length l1)) l2.
Proof.
  revert idx. induction l1 as [|item l1 IH]; intros idx.
  - simpl. rewrite Z.add_0_r. reflexivity.
  - cbn [app failures length]. rewrite IH, <- app_assoc.
    replace (idx + 1 + Z.of_nat (length l1))
      with (idx + Z.of_nat (S (length l1))) by lia.
    reflexivity.
Qed.

Lemma Each_accepts (vs : list validator) (em : gmap string string)
    (items : list value) (context : value) :
  obeys_contract vs items ->
  Each.__call__ (Each.__init__ (Each.Many vs) em) (VList items) context
  = Return tt
  <-> failures vs 0 items = [].
Proof.
  intros Hc. unfold Each.__call__.
  cbn [is_sequence isinstance_Sequence negb iter Each.validators Each.__init__
       mbind result_bind].
  rewrite (Each_for_items_spec vs 0 items _ Hc). cbn [mbind result_bind].
  unfold ValidationErrorBuilder.raise_errors.
  destruct (ValidationErrorBuilder.errors _) eqn:E.
  - split; [|reflexivity]. intros _.
    unfold ValidationErrorBuilder.add_errors in E.
    cbn [ValidationErrorBuilder.errors] in E.
    apply fold_record_not_nil in E. tauto.
  - split; [discriminate|]. intros H. rewrite H in E. discriminate E.
Qed.

(** X19. With validators that keep to the validator contract, [Each]
    accepts the concatenation of two lists exactly when it accepts each of
    the two. *)
Theorem Each_concatenation (vs : list validator) (em : gmap string string)
    (l1 l2 : list value) (context : value) :
  obeys_contract vs (l1 ++ l2) ->
  let each := Each.__init__ (Each.Many vs) em in
  Each.__call__ each (VList (l1 ++ l2)) context = Return tt
  <-> Each.__call__ each (VList l1) context = Return tt
      /\ Each.__call__ each (VList l2) context = Return tt.
Proof.
  intros Hc each.
  assert (obeys_contract vs l1) as Hc1
    by (intros v item Hv Hi; apply Hc; [exact Hv | apply in_or_app; tauto]).
  assert (obeys_contract vs l2) as Hc2
    by (intros v item Hv Hi; apply Hc; [exact Hv | apply in_or_app; tauto]).
  unfold each.
  rewrite (Each_accepts vs em _ context Hc), (Each_accepts vs em _ context Hc1),
    (Each_accepts vs em _ context Hc2), failures_app.
  split.
  - intros H. apply app_eq_nil in H. destruct H as [H1 H2].
    split; [exact H1|]. revert H2. apply failures_shift.
  - intros [H1 H2]. rewrite H1. simpl. revert H2. apply failures_shift.
Qed.

Lemma Each_concatenation_witness :
  Each.__call__ (Each.__init__ (Each.Many [not_empty]) ∅)
    (VList ([VStr "a"] ++ [VStr "b"])) VNone = Return tt
  <-> Each.__call__ (Each.__init__ (Each.Many [not_empty]) ∅)
        (VList [VStr "a"]) VNone = Return tt
      /\ Each.__call__ (Each.__init__ (Each.Many [not_empty]) ∅)
           (VList [VStr "b"]) VNone = Return tt.
Proof.
  apply (Each_concatenation [not_empty] ∅ [VStr "a"] [VStr "b"] VNone).
  intros v item [<-|[]] [<-|[<-|[]]]; left; reflexivity.
Defined.

(** ** Examples *)

Example Range_inside :
  Range.__call__ one_to_five (VInt 3) VNone = Return tt.
Proof. reflexivity. Qed.

Example Range_outside :
  Range.__call__ one_to_five (VInt 7) VNone
  = Raise (ValidationError (MsgStr "Value should be at least 1 and at most 5")).
Proof. reflexivity. Qed.

Example Range_on_a_string :
  Range.__call__ one_to_five (VStr "7") VNone
  = Raise (TypeError "'<' not supported between these instances").
Proof. reflexivity. Qed.

Example Unique_second_two :
  Unique.__call__ (Unique.__init__ identity None ∅)
    (VList [VInt 1; VInt 2; VInt 2; VInt 3]) VNone
  = Raise (ValidationError (MsgStr "Values are not unique")).
Proof. reflexivity. Qed.

Example Unique_distinct :
  Unique.__call__ (Unique.__init__ identity None ∅)
    (VList [VInt 1; VInt 2; VInt 3]) VNone
  = Return tt.
Proof. reflexivity. Qed.

Example Unique_unhashable :
  Unique.__call__ (Unique.__init__ identity None ∅)
    (VList [VList [VInt 1]; VList [VInt 1]]) VNone
  = Raise (TypeError "unhashable type").
Proof. reflexivity. Qed.

Example Each_one_empty_string :
  Each.__call__ (Each.__init__ (Each.Many [not_empty; at_most_one]) ∅)
    (VList [VStr "o"; VStr EmptyString; VStr "k"]) VNone
  = Raise (ValidationError
             (MsgDict [(VInt 1, MsgList [MsgStr "Length should be at least 1"])])).
Proof. reflexivity. Qed.

Example Each_two_failures_at_one_index :
  Each.__call__ (Each.__init__ (Each.Many [at_most_one; exactly_two]) ∅)
    (VList [VStr "ab"; VStr "abc"]) VNone
  = Raise (ValidationError
             (MsgDict
                [(VInt 0, MsgList [MsgStr "Length should be at most 1"]);
                 (VInt 1, MsgList [MsgStr "Length should be at most 1";
                                   MsgStr "Length should be 2"])])).
Proof. reflexivity. Qed.

Example Each_all_valid :
  Each.__call__ (Each.__init__ (Each.Many [not_empty; at_most_one]) ∅)
    (VStr "abc") VNone
  = Return tt.
Proof. reflexivity. Qed.

Example Each_other_exception :
  Each.__call__ (Each.__init__ (Each.Many [not_empty]) ∅)
    (VList [VStr EmptyString; VInt 3; VStr EmptyString]) VNone
  = Raise (TypeError "object of type 'int' has no len()").
Proof. reflexivity. Qed.

Example Predicate_one_argument :
  (p ← Predicate.__init__ is_truthy None ∅;
   Predicate.__call__ p (VInt 1) (VInt 0))
  = Return tt.
Proof. reflexivity. Qed.

Example Predicate_two_arguments :
  (p ← Predicate.__init__ context_is_truthy None ∅;
   Predicate.__call__ p (VInt 1) (VInt 0))
  = Raise (ValidationError (MsgStr "Invalid data")).
Proof. reflexivity. Qed.

Example Each_hides_the_context :
  (p ← Predicate.__init__ context_is_truthy None ∅;
   Each.__call__ (Each.__init__ (Each.One (Predicate.__call__ p)) ∅)
     (VList [VInt 1]) (VInt 1))
  = Raise (ValidationError (MsgDict [(VInt 0, MsgList [MsgStr "Invalid data"])])).
Proof. reflexivity. Qed.

Example registration_after_a_failed_use :
  (TypeRef.load 0 [VInt 7]
     (run_ops [OpGet "X"; OpLoad 0 [VInt 7]; OpAdd "X" echo_type] initial_world)).1
  = Return (VList [VInt 7]).
Proof. reflexivity. Qed.

Example compile_digits :
  re.ast <$> re.compile "^[0-9]+$" 0
  = Some (re.Cat re.Bol
            (re.Cat (re.Plus (re.Set_ false [("0"%char, "9"%char)])) re.Eol)).
Proof. reflexivity. Qed.
